(** * EasyFlash, STM32F10x flash port (flash_port.c)

    A shallow embedding of [flash_port_init], [flash_read], [flash_erase] and
    [flash_write] of demo/stm32f10x/components/flash/port/flash_port.c, and the
    properties of the port that its specification states.

    The port sits on the STM32 standard peripheral library: [FLASH_Unlock],
    [FLASH_Lock], [FLASH_ClearFlag], [FLASH_ErasePage] and [FLASH_ProgramWord]
    drive the flash controller, and the array itself is read through plain
    memory-mapped loads.  Those routines and the cells behind them are the
    physical medium; they are kept abstract (class [Medium]) and every
    property that depends on how the medium behaves names the behaviour it
    relies on. *)

From Stdlib Require Import ZArith List Bool String Lia.
Import ListNotations.
Open Scope Z_scope.

(* ================================================================== *)
(** ** Machine integers *)

(** [uint32_t] and, on this 32-bit target, [size_t]: arithmetic is modulo
    2^32. *)
Definition two32 : Z := 4294967296.

Definition wrap32 (x : Z) : Z := x mod two32.

(** The value of a byte whose eight bits are set: an erased cell. *)
Definition ERASED : Z := 255.

(** The 32-bit word whose four bytes are erased. *)
Definition ERASED_WORD : Z := 4294967295.

(* ================================================================== *)
(** ** Types of flash.h and of the vendor library *)

(** [FlashErrCode] (flash.h), restricted to the codes this file returns. *)
Inductive FlashErrCode : Type :=
| FLASH_NO_ERR
| FLASH_ERASE_ERR
| FLASH_WRITE_ERR.

(** [FLASH_Status] (stm32f10x_flash.h). *)
Inductive FLASH_Status : Type :=
| FLASH_BUSY
| FLASH_ERROR_PG
| FLASH_ERROR_WRP
| FLASH_COMPLETE
| FLASH_TIMEOUT.

Definition is_complete (s : FLASH_Status) : bool :=
  match s with FLASH_COMPLETE => true | _ => false end.

(** [flash_env] (flash.h): one key/value pair of the environment. *)
Record flash_env : Type := { key : string; value : string }.

(** The device lines the vendor headers distinguish, one per [STM32F10X_*]
    macro. *)
Inductive Target : Type :=
| STM32F10X_LD | STM32F10X_LD_VL | STM32F10X_MD | STM32F10X_MD_VL
| STM32F10X_HD | STM32F10X_HD_VL | STM32F10X_XL | STM32F10X_CL.

(** Status flags of the controller (stm32f10x_flash.h). *)
Definition FLASH_FLAG_BSY : Z := 1.
Definition FLASH_FLAG_EOP : Z := 32.
Definition FLASH_FLAG_PGERR : Z := 4.
Definition FLASH_FLAG_WRPRTERR : Z := 16.

(** Start of the flash array in the address map (stm32f10x.h). *)
Definition FLASH_BASE : Z := 134217728.

(* ================================================================== *)
(** ** The medium *)

(** What the port needs of the hardware: the byte stored at an address, and
    the five vendor routines as functions of the device state. *)
Class Medium (Dev : Type) : Type := {
  cell : Dev -> Z -> Z;
  FLASH_Unlock : Dev -> Dev;
  FLASH_Lock : Dev -> Dev;
  FLASH_ClearFlag : Z -> Dev -> Dev;
  FLASH_ErasePage : Z -> Dev -> FLASH_Status * Dev;
  FLASH_ProgramWord : Z -> Z -> Dev -> FLASH_Status * Dev
}.

(** A call of the port into the vendor library. *)
Inductive Call : Type :=
| CallUnlock
| CallClearFlag (flags : Z)
| CallErasePage (page_address : Z)
| CallProgramWord (address data : Z)
| CallLock.

(** The device together with the calls made so far, oldest first. *)
Record World (Dev : Type) : Type := { dev : Dev; calls : list Call }.
Arguments dev {Dev} _.
Arguments calls {Dev} _.

Section Port.

Context {Dev : Type} {M : Medium Dev}.

(** The build configuration: which device macro is defined. *)
Variable target : Target.

(* ---------------------------------------------------------------- *)
(** *** Configuration macros *)

Definition PAGE_SIZE : Z :=
  match target with
  | STM32F10X_LD | STM32F10X_LD_VL | STM32F10X_MD | STM32F10X_MD_VL => 1024
  | _ => 2048
  end.

Definition FLASH_ENV_START_ADDR : Z := FLASH_BASE + 100 * 1024.

Definition FLASH_ENV_SECTION_SIZE : Z := 1 * PAGE_SIZE.

(* ---------------------------------------------------------------- *)
(** *** Memory-mapped access and recorded vendor calls *)

(** Address of the [k]-th byte of the object at [a]. *)
Definition byte_addr (a k : Z) : Z := wrap32 (a + k).

(** [*(uint32_t * ) a]: the four bytes at [a], least significant first. *)
Definition load32 (d : Dev) (a : Z) : Z :=
  cell d (byte_addr a 0)
  + 256 * cell d (byte_addr a 1)
  + 65536 * cell d (byte_addr a 2)
  + 16777216 * cell d (byte_addr a 3).

Definition record (c : Call) (d : Dev) (w : World Dev) : World Dev :=
  {| dev := d; calls := calls w ++ [c] |}.

Definition do_Unlock (w : World Dev) : World Dev :=
  record CallUnlock (FLASH_Unlock (dev w)) w.

Definition do_Lock (w : World Dev) : World Dev :=
  record CallLock (FLASH_Lock (dev w)) w.

Definition do_ClearFlag (flags : Z) (w : World Dev) : World Dev :=
  record (CallClearFlag flags) (FLASH_ClearFlag flags (dev w)) w.

Definition do_ErasePage (a : Z) (w : World Dev) : FLASH_Status * World Dev :=
  let r := FLASH_ErasePage a (dev w) in
  (fst r, record (CallErasePage a) (snd r) w).

Definition do_ProgramWord (a v : Z) (w : World Dev)
  : FLASH_Status * World Dev :=
  let r := FLASH_ProgramWord a v (dev w) in
  (fst r, record (CallProgramWord a v) (snd r) w).

Definition CLEARED_FLAGS : Z :=
  Z.lor (Z.lor (Z.lor FLASH_FLAG_BSY FLASH_FLAG_EOP) FLASH_FLAG_PGERR)
        FLASH_FLAG_WRPRTERR.

(* ---------------------------------------------------------------- *)
(** *** flash_port_init *)

Definition default_env_set : list flash_env :=
  [ {| key := "iap_need_copy_app"; value := "0" |};
    {| key := "iap_copy_app_size"; value := "0" |};
    {| key := "stop_in_bootloader"; value := "0" |};
    {| key := "device_id"; value := "1" |};
    {| key := "boot_times"; value := "0" |} ].

(** The four objects the caller passes by pointer.  [default_env] is a
    pointer to a table; it is modelled by the table it points to. *)
Record InitArgs : Type := {
  env_addr : Z;
  env_size : Z;
  default_env : list flash_env;
  default_env_size : Z
}.

(** Modelled from the spec: the macro [FLASH_ASSERT] is defined in flash.h,
    which lies outside flash_port.c.  The specification makes a
    failed assertion a fatal ConfigurationFault, not a result that is
    returned: control does not come back to the caller.  [ConfigurationFault]
    carries the caller's objects as they are when the assertion fails. *)
Inductive InitOutcome : Type :=
| InitReturned (result : FlashErrCode) (out : InitArgs)
| ConfigurationFault (at_fault : InitArgs).

Definition flash_port_init (a : InitArgs) : InitOutcome :=
  let result := FLASH_NO_ERR in
  if env_size a mod 4 =? 0 then
    let a := {| env_addr := FLASH_ENV_START_ADDR; env_size := env_size a;
                default_env := default_env a;
                default_env_size := default_env_size a |} in
    let a := {| env_addr := env_addr a; env_size := FLASH_ENV_SECTION_SIZE;
                default_env := default_env a;
                default_env_size := default_env_size a |} in
    let a := {| env_addr := env_addr a; env_size := env_size a;
                default_env := default_env_set;
                default_env_size := default_env_size a |} in
    let a := {| env_addr := env_addr a; env_size := env_size a;
                default_env := default_env a;
                default_env_size := Z.of_nat (List.length default_env_set) |} in
    InitReturned result a
  else ConfigurationFault a.

(* ---------------------------------------------------------------- *)
(** *** flash_read *)

(** The loop [for (; size > 0; size--, addr += 4, buf++) *buf = *addr]:
    [n] is the number of words still to copy, the result the words stored
    through [buf], first slot first. *)
Fixpoint read_loop (n : nat) (addr : Z) (d : Dev) : list Z :=
  match n with
  | O => []
  | S n' => load32 d addr :: read_loop n' (wrap32 (addr + 4)) d
  end.

Definition flash_read (addr size : Z) (w : World Dev)
  : FlashErrCode * list Z * World Dev :=
  let result := FLASH_NO_ERR in
  (result, read_loop (Z.to_nat size) addr (dev w), w).

(* ---------------------------------------------------------------- *)
(** *** flash_erase *)

(** [erase_pages] as the first statements of [flash_erase] compute it. *)
Definition erase_pages (size : Z) : Z :=
  let erase_pages := size / PAGE_SIZE in
  if negb (size mod PAGE_SIZE =? 0) then erase_pages + 1 else erase_pages.

(** The loop [for (i = 0; i < erase_pages; i++)].  [n] is [erase_pages - i],
    the number of iterations left; [i] stays below [erase_pages], so that
    [i++] never wraps. *)
Fixpoint erase_loop (n : nat) (addr i : Z) (w : World Dev)
  : FlashErrCode * World Dev :=
  match n with
  | O => (FLASH_NO_ERR, w)
  | S n' =>
      let (flash_status, w1) :=
        do_ErasePage (wrap32 (addr + wrap32 (PAGE_SIZE * i))) w in
      if is_complete flash_status
      then erase_loop n' addr (i + 1) w1
      else (FLASH_ERASE_ERR, w1)
  end.

Definition flash_erase (addr size : Z) (w : World Dev)
  : FlashErrCode * World Dev :=
  let w := do_Unlock w in
  let w := do_ClearFlag CLEARED_FLAGS w in
  let (result, w) := erase_loop (Z.to_nat (erase_pages size)) addr 0 w in
  (result, do_Lock w).

(* ---------------------------------------------------------------- *)
(** *** flash_write *)

(** The loop [for (i = 0; i < size; i += 4, buf++, addr += 4)].  [buf] is
    the caller's memory seen as words from the pointer passed in and [k]
    the number of [buf++] so far.  [i += 4] is computed in [size_t] and can
    wrap, so the loop is run on fuel: [None] means the fuel ran out before
    the loop was left. *)
Fixpoint write_loop (fuel : nat) (addr : Z) (buf : nat -> Z) (k : nat)
         (i size : Z) (w : World Dev) : option (FlashErrCode * World Dev) :=
  match fuel with
  | O => None
  | S fuel' =>
      if i <? size then
        let (_, w1) := do_ProgramWord addr (buf k) w in
        let read_data := load32 (dev w1) addr in
        if negb (read_data =? buf k)
        then Some (FLASH_WRITE_ERR, w1)
        else write_loop fuel' (wrap32 (addr + 4)) buf (S k)
                        (wrap32 (i + 4)) size w1
      else Some (FLASH_NO_ERR, w)
  end.

Definition flash_write (fuel : nat) (addr : Z) (buf : nat -> Z) (size : Z)
           (w : World Dev) : option (FlashErrCode * World Dev) :=
  let w := do_Unlock w in
  let w := do_ClearFlag CLEARED_FLAGS w in
  match write_loop fuel addr buf O 0 size w with
  | Some (result, w) => Some (result, do_Lock w)
  | None => None
  end.

End Port.


(* ================================================================== *)
(** ** A simulated medium *)

(** Modelled from the spec: the flash array lies outside flash_port.c.  The
    specification describes the medium as NOR-flash-class storage, addressed
    by bytes.  The simulation is a byte store. *)
Definition Store : Type := Z -> Z.

Definition page_base (target : Target) (a : Z) : Z :=
  a - a mod PAGE_SIZE target.

(** Modelled from the spec: [FLASH_ErasePage] lies outside flash_port.c.
    The specification has erase work on whole pages and set them to all-one
    bits, and lets the medium refuse a page.  A page is named by any address
    inside it; on a page that [protected] tells write-protected the store is
    left alone and [FLASH_ERROR_WRP] is reported. *)
Definition sim_ErasePage (target : Target) (protected : Z -> bool)
           (p : Z) (m : Store) : FLASH_Status * Store :=
  let base := page_base target p in
  if protected base then (FLASH_ERROR_WRP, m)
  else (FLASH_COMPLETE,
        fun b => if (base <=? b) && (b <? base + PAGE_SIZE target)
                 then ERASED else m b).

(** The [k]-th byte of the word [v], least significant first. *)
Definition word_byte (v k : Z) : Z := (v / 256 ^ k) mod 256.

(** Modelled from the spec: [FLASH_ProgramWord] lies outside flash_port.c.
    The specification has programming flip bits away from the erased state
    only: each of the four bytes becomes the bitwise and of what it held and
    what is programmed.  On a write-protected page the store is left alone
    and [FLASH_ERROR_WRP] is reported. *)
Definition sim_ProgramWord (target : Target) (protected : Z -> bool)
           (a v : Z) (m : Store) : FLASH_Status * Store :=
  if protected (page_base target a) then (FLASH_ERROR_WRP, m)
  else (FLASH_COMPLETE,
        fun b =>
          if b =? byte_addr a 0 then Z.land (m b) (word_byte v 0)
          else if b =? byte_addr a 1 then Z.land (m b) (word_byte v 1)
          else if b =? byte_addr a 2 then Z.land (m b) (word_byte v 2)
          else if b =? byte_addr a 3 then Z.land (m b) (word_byte v 3)
          else m b).

(** Modelled from the spec: the three control routines lie outside
    flash_port.c; they act on the controller and leave the array alone. *)
Definition sim_medium (target : Target) (protected : Z -> bool)
  : Medium Store := {|
  cell := fun m b => m b;
  FLASH_Unlock := fun m => m;
  FLASH_Lock := fun m => m;
  FLASH_ClearFlag := fun _ m => m;
  FLASH_ErasePage := sim_ErasePage target protected;
  FLASH_ProgramWord := sim_ProgramWord target protected
|}.

(** No page is write-protected. *)
Definition unprotected : Z -> bool := fun _ => false.

(** A store in which every cell holds [v], before any call. *)
Definition filled (v : Z) : World Store :=
  {| dev := fun _ => v; calls := [] |}.

(** The medium-density part with no page protected. *)
Definition md_flash : Medium Store := sim_medium STM32F10X_MD unprotected.

(** The medium-density part with the page at [p] write-protected. *)
Definition md_flash_protected (p : Z) : Medium Store :=
  sim_medium STM32F10X_MD (fun q => q =? p).

(** An erased store, but for the four bytes of the word at [a], which hold
    0. *)
Definition dirty_word (a : Z) : World Store :=
  {| dev := fun b => if (a <=? b) && (b <? a + 4) then 0 else ERASED;
     calls := [] |}.

(** A buffer whose every word has all its bits set. *)
Definition all_ones : nat -> Z := fun _ => ERASED_WORD.

(** The caller's buffer holding the words of [data]. *)
Definition buffer (data : list Z) : nat -> Z := fun k => nth k data 0.

(* ================================================================== *)
(** ** Vocabulary of the statements *)

Section Vocabulary.

Context {Dev : Type} {M : Medium Dev}.
Variable target : Target.

(** [d'] stores what [d] stores. *)
Definition same_cells (d d' : Dev) : Prop := forall b, cell d' b = cell d b.

(** The [n] bytes from [a] on are erased. *)
Definition erased_range (d : Dev) (a n : Z) : Prop :=
  forall o, 0 <= o < n -> cell d (byte_addr a o) = ERASED.

(** Address of page [i] of an erase that starts at [addr], as [flash_erase]
    computes it. *)
Definition page_addr (addr : Z) (i : nat) : Z :=
  wrap32 (addr + wrap32 (PAGE_SIZE target * Z.of_nat i)).

(** Address of word [i] of a transfer that starts at [addr]. *)
Definition word_addr (addr : Z) (i : nat) : Z :=
  wrap32 (addr + 4 * Z.of_nat i).

(** The world once the first [k] pages from [addr] have gone through
    [FLASH_ErasePage], in order. *)
Fixpoint after_erases (addr : Z) (k : nat) (w : World Dev) : World Dev :=
  match k with
  | O => w
  | S k' => snd (do_ErasePage (page_addr addr k') (after_erases addr k' w))
  end.

(** What [FLASH_ErasePage] reports for page [k] once the pages before it
    have been erased. *)
Definition page_status (addr : Z) (k : nat) (w : World Dev) : FLASH_Status :=
  fst (do_ErasePage (page_addr addr k) (after_erases addr k w)).

(** The world once the first [k] words of [buf] have gone through
    [FLASH_ProgramWord], in order, from [addr] on. *)
Fixpoint after_programs (addr : Z) (buf : nat -> Z) (k : nat)
         (w : World Dev) : World Dev :=
  match k with
  | O => w
  | S k' => snd (do_ProgramWord (word_addr addr k') (buf k')
                                (after_programs addr buf k' w))
  end.

(** The read-back of word [k], made right after it was programmed, gives the
    word that was programmed. *)
Definition verified (addr : Z) (buf : nat -> Z) (k : nat) (w : World Dev)
  : bool :=
  load32 (dev (after_programs addr buf (S k) w)) (word_addr addr k) =? buf k.

(** The number of words that cover [size] bytes: a quarter of [size],
    rounded up. *)
Definition words_of (size : Z) : nat := Z.to_nat ((size + 3) / 4).

(** The loop counter of [flash_write] does not wrap as long as [size] leaves
    room for one more step of 4. *)
Definition no_wrap (size : Z) : Prop := 0 <= size <= two32 - 4.

(** The number of pages [flash_erase] goes through for [size] bytes. *)
Definition pages_of (size : Z) : nat := Z.to_nat (erase_pages target size).

(** The world in which [flash_erase] and [flash_write] run their loop. *)
Definition unlocked (w : World Dev) : World Dev :=
  do_ClearFlag CLEARED_FLAGS (do_Unlock w).

(** The calls of an erase that went through [k] pages from [addr]. *)
Definition erase_calls (addr : Z) (k : nat) : list Call :=
  [CallUnlock; CallClearFlag CLEARED_FLAGS]
  ++ map (fun i =>
            CallErasePage (wrap32 (addr + Z.of_nat i * PAGE_SIZE target)))
         (seq 0 k)
  ++ [CallLock].

(** The calls of a write that programmed the first [k] words of [buf] from
    [addr] on. *)
Definition write_calls (addr : Z) (buf : nat -> Z) (k : nat) : list Call :=
  [CallUnlock; CallClearFlag CLEARED_FLAGS]
  ++ map (fun i => CallProgramWord (wrap32 (addr + 4 * Z.of_nat i)) (buf i))
         (seq 0 k)
  ++ [CallLock].

(** What [flash_port_init] hands out. *)
Definition negotiated : InitArgs :=
  {| env_addr := FLASH_ENV_START_ADDR;
     env_size := FLASH_ENV_SECTION_SIZE target;
     default_env := default_env_set;
     default_env_size := 5 |}.

(** *** Behaviour of a medium *)

Definition lock_keeps_cells : Prop :=
  forall d, same_cells d (FLASH_Lock d).

Definition unlock_keeps_cells : Prop :=
  forall d, same_cells d (FLASH_Unlock d).

Definition clearflag_keeps_cells : Prop :=
  forall f d, same_cells d (FLASH_ClearFlag f d).

(** Programming a word touches the four bytes of that word only. *)
Definition program_is_local : Prop :=
  forall a v d b,
    (forall k, 0 <= k < 4 -> b <> byte_addr a k) ->
    cell (snd (FLASH_ProgramWord a v d)) b = cell d b.

(** An erased cell stays erased through any page erase, whatever it
    reports. *)
Definition erase_keeps_erased : Prop :=
  forall p d b,
    cell d b = ERASED -> cell (snd (FLASH_ErasePage p d)) b = ERASED.

(** A page erase at [p] that reports completion leaves the page at [p]
    erased. *)
Definition erase_clears_page (p : Z) : Prop :=
  forall d,
    fst (FLASH_ErasePage p d) = FLASH_COMPLETE ->
    erased_range (snd (FLASH_ErasePage p d)) p (PAGE_SIZE target).

(** A page erase at [p] touches the page at [p] only. *)
Definition erase_is_local (p : Z) : Prop :=
  forall d b,
    (forall o, 0 <= o < PAGE_SIZE target -> b <> byte_addr p o) ->
    cell (snd (FLASH_ErasePage p d)) b = cell d b.

(** Erasing the page at [p] when it is erased already completes. *)
Definition erase_of_erased_completes (p : Z) : Prop :=
  forall d,
    erased_range d p (PAGE_SIZE target) ->
    fst (FLASH_ErasePage p d) = FLASH_COMPLETE.

(** A page-aligned address whose page lies in the address space. *)
Definition page_aligned (p : Z) : Prop :=
  p mod PAGE_SIZE target = 0 /\ 0 <= p /\ p + PAGE_SIZE target <= two32.

End Vocabulary.


(* ================================================================== *)
(** ** Vocabulary of the further properties *)

(** The call is a [FLASH_ProgramWord]. *)
Definition is_program_call (c : Call) : bool :=
  match c with CallProgramWord _ _ => true | _ => false end.

(** The call is a [FLASH_ErasePage]. *)
Definition is_erase_call (c : Call) : bool :=
  match c with CallErasePage _ => true | _ => false end.

(** A store whose cell at [b] holds the low byte of [b], before any call. *)
Definition ramp : World Store :=
  {| dev := fun b => b mod 256; calls := [] |}.

(** A store erased on the [n] bytes from [a] on and holding 0 elsewhere,
    before any call. *)
Definition erased_from (a n : Z) : World Store :=
  {| dev := fun b => if (a <=? b) && (b <? a + n) then ERASED else 0;
     calls := [] |}.

Section FurtherVocabulary.

Context {Dev : Type} {M : Medium Dev}.

(** [b] is none of the [n] bytes from [a] on. *)
Definition outside (a n b : Z) : Prop :=
  forall o, 0 <= o < n -> b <> byte_addr a o.

(** Programming a 32-bit value onto an erased word makes the word read as
    that value. *)
Definition program_stores_on_erased : Prop :=
  forall a v d,
    0 <= v < two32 ->
    erased_range d a 4 ->
    load32 (snd (FLASH_ProgramWord a v d)) a = v.

(** The medium [M], but for what [FLASH_ProgramWord] reports: [st] tells
    the status, the device goes where it goes on [M]. *)
Definition reporting (st : Z -> Z -> Dev -> FLASH_Status) : Medium Dev :=
  {| cell := cell;
     FLASH_Unlock := FLASH_Unlock;
     FLASH_Lock := FLASH_Lock;
     FLASH_ClearFlag := FLASH_ClearFlag;
     FLASH_ErasePage := FLASH_ErasePage;
     FLASH_ProgramWord :=
       fun a v d => (st a v d, snd (FLASH_ProgramWord a v d)) |}.

(** The medium [M], but for what a load from the array gives: [c] tells
    the bytes, the routines are those of [M]. *)
Definition seen_as (c : Dev -> Z -> Z) : Medium Dev :=
  {| cell := c;
     FLASH_Unlock := FLASH_Unlock;
     FLASH_Lock := FLASH_Lock;
     FLASH_ClearFlag := FLASH_ClearFlag;
     FLASH_ErasePage := FLASH_ErasePage;
     FLASH_ProgramWord := FLASH_ProgramWord |}.

End FurtherVocabulary.

(* ================================================================== *)
(** ** Arithmetic modulo 2^32 *)

Lemma two32_pos : 0 < two32.
Proof. reflexivity. Qed.

Lemma wrap32_small (x : Z) : 0 <= x < two32 -> wrap32 x = x.
Proof. intros Hx. unfold wrap32. now apply Z.mod_small. Qed.

Lemma wrap32_range (x : Z) : 0 <= wrap32 x < two32.
Proof. unfold wrap32. apply Z.mod_pos_bound, two32_pos. Qed.

Lemma wrap32_add_l (a b : Z) : wrap32 (wrap32 a + b) = wrap32 (a + b).
Proof. unfold wrap32. now rewrite Z.add_mod_idemp_l by (unfold two32; lia). Qed.

Lemma wrap32_add_r (a b : Z) : wrap32 (a + wrap32 b) = wrap32 (a + b).
Proof. unfold wrap32. now rewrite Z.add_mod_idemp_r by (unfold two32; lia). Qed.

(** Two offsets below 2^32 from one address reach one byte only when they are
    the same offset. *)
Lemma wrap32_offset_inj (a x y : Z) :
  0 <= x < two32 -> 0 <= y < two32 ->
  wrap32 (a + x) = wrap32 (a + y) -> x = y.
Proof.
  intros Hx Hy H. unfold wrap32 in H.
  assert (Hd : (x - y) mod two32 = 0).
  { replace (x - y) with ((a + x) - (a + y)) by lia.
    rewrite Zminus_mod, H, Z.sub_diag. reflexivity. }
  apply Z.mod_divide in Hd; [| unfold two32; lia].
  destruct Hd as [q Hq]. unfold two32 in *. lia.
Qed.

Lemma byte_addr_wrap (a k : Z) : byte_addr (wrap32 a) k = byte_addr a k.
Proof. unfold byte_addr. apply wrap32_add_l. Qed.

Lemma byte_addr_offset (a x k : Z) :
  byte_addr (wrap32 (a + x)) k = byte_addr a (x + k).
Proof. unfold byte_addr. rewrite wrap32_add_l. f_equal. lia. Qed.

Lemma PAGE_SIZE_cases (target : Target) :
  PAGE_SIZE target = 1024 \/ PAGE_SIZE target = 2048.
Proof. destruct target; cbn; auto. Qed.

Lemma PAGE_SIZE_pos (target : Target) : 0 < PAGE_SIZE target.
Proof. destruct (PAGE_SIZE_cases target) as [H | H]; rewrite H; lia. Qed.

Lemma page_addr_flat (target : Target) (addr : Z) (i : nat) :
  page_addr target addr i = wrap32 (addr + PAGE_SIZE target * Z.of_nat i).
Proof. unfold page_addr. apply wrap32_add_r. Qed.

(** The page count of [flash_erase] is the quotient rounded up. *)
Lemma erase_pages_ceil (target : Target) (size : Z) :
  erase_pages target size = (size + PAGE_SIZE target - 1) / PAGE_SIZE target.
Proof.
  unfold erase_pages. pose proof (PAGE_SIZE_pos target) as Hp.
  pose proof (Z.div_mod size (PAGE_SIZE target) ltac:(lia)) as Hdm.
  pose proof (Z.mod_pos_bound size (PAGE_SIZE target) Hp) as Hb.
  destruct (size mod PAGE_SIZE target =? 0) eqn:E; cbn [negb].
  - apply Z.eqb_eq in E.
    apply Z.div_unique with (r := PAGE_SIZE target - 1); lia.
  - apply Z.eqb_neq in E.
    apply Z.div_unique with (r := size mod PAGE_SIZE target - 1); lia.
Qed.

Lemma erase_pages_bounds (target : Target) (size : Z) :
  0 <= size ->
  0 <= erase_pages target size /\
  size <= erase_pages target size * PAGE_SIZE target
       < size + PAGE_SIZE target.
Proof.
  intros Hs. unfold erase_pages. pose proof (PAGE_SIZE_pos target) as Hp.
  pose proof (Z.div_mod size (PAGE_SIZE target) ltac:(lia)) as Hdm.
  pose proof (Z.mod_pos_bound size (PAGE_SIZE target) Hp) as Hb.
  assert (0 <= size / PAGE_SIZE target) by (apply Z.div_pos; lia).
  destruct (size mod PAGE_SIZE target =? 0) eqn:E; cbn [negb].
  - apply Z.eqb_eq in E. nia.
  - apply Z.eqb_neq in E. nia.
Qed.

(* ================================================================== *)
(** ** The erase loop *)

Section EraseLoop.

Context {Dev : Type} {M : Medium Dev}.
Variable target : Target.
Variable addr : Z.

Lemma calls_after_erases (k : nat) (w : World Dev) :
  calls (after_erases target addr k w)
  = calls w ++ map CallErasePage (map (page_addr target addr) (seq 0 k)).
Proof.
  induction k as [| k IH]; cbn [after_erases].
  - cbn. now rewrite app_nil_r.
  - cbn [do_ErasePage snd record calls]. rewrite IH, seq_S, !map_app.
    cbn [map Nat.add]. now rewrite app_assoc.
Qed.

(** As long as the medium reports completion the loop goes on to the next
    page. *)
Lemma erase_loop_complete (n i : nat) (w : World Dev) :
  (forall j, (i <= j < i + n)%nat ->
             page_status target addr j w = FLASH_COMPLETE) ->
  erase_loop target n addr (Z.of_nat i) (after_erases target addr i w)
  = (FLASH_NO_ERR, after_erases target addr (i + n) w).
Proof.
  revert i. induction n as [| n IH]; intros i Hall; cbn [erase_loop].
  - now rewrite Nat.add_0_r.
  - fold (page_addr target addr i).
    destruct (do_ErasePage (page_addr target addr i)
                           (after_erases target addr i w)) as [st w1] eqn:E.
    assert (Hst : st = page_status target addr i w)
      by (unfold page_status; now rewrite E).
    assert (Hw1 : w1 = after_erases target addr (S i) w)
      by (cbn [after_erases]; now rewrite E).
    rewrite Hst, Hall by lia. cbn [is_complete].
    replace (Z.of_nat i + 1) with (Z.of_nat (S i)) by lia.
    rewrite Hw1, IH by (intros j Hj; apply Hall; lia).
    f_equal. f_equal. lia.
Qed.

(** The loop is left at the first page whose erase is not reported
    complete. *)
Lemma erase_loop_failure (n i k : nat) (w : World Dev) :
  (i <= k < i + n)%nat ->
  (forall j, (i <= j < k)%nat ->
             page_status target addr j w = FLASH_COMPLETE) ->
  page_status target addr k w <> FLASH_COMPLETE ->
  erase_loop target n addr (Z.of_nat i) (after_erases target addr i w)
  = (FLASH_ERASE_ERR, after_erases target addr (S k) w).
Proof.
  revert i. induction n as [| n IH]; intros i Hk Hbefore Hfail;
    cbn [erase_loop]; [lia |].
  fold (page_addr target addr i).
  destruct (do_ErasePage (page_addr target addr i)
                         (after_erases target addr i w)) as [st w1] eqn:E.
  assert (Hst : st = page_status target addr i w)
    by (unfold page_status; now rewrite E).
  assert (Hw1 : w1 = after_erases target addr (S i) w)
    by (cbn [after_erases]; now rewrite E).
  destruct (Nat.eq_dec i k) as [-> | Hne].
  - rewrite Hst. destruct (page_status target addr k w); try congruence;
      cbn [is_complete]; now rewrite Hw1.
  - rewrite Hst, Hbefore by lia. cbn [is_complete].
    replace (Z.of_nat i + 1) with (Z.of_nat (S i)) by lia.
    rewrite Hw1. apply IH; [lia | | assumption].
    intros j Hj. apply Hbefore. lia.
Qed.

Lemma FLASH_Status_complete_dec (s : FLASH_Status) :
  {s = FLASH_COMPLETE} + {s <> FLASH_COMPLETE}.
Proof. destruct s; (now left) || (right; discriminate). Qed.

(** Among [n] pages either all erase, or there is a first one that does
    not. *)
Lemma first_failing_page (n : nat) (w : World Dev) :
  (forall j, (j < n)%nat -> page_status target addr j w = FLASH_COMPLETE)
  \/ exists k, (k < n)%nat
       /\ (forall j, (j < k)%nat ->
                     page_status target addr j w = FLASH_COMPLETE)
       /\ page_status target addr k w <> FLASH_COMPLETE.
Proof.
  induction n as [| n [IH | (k & Hk & Hb & Hf)]].
  - left. intros j Hj. lia.
  - destruct (FLASH_Status_complete_dec (page_status target addr n w))
      as [Hc | Hc].
    + left. intros j Hj. destruct (Nat.eq_dec j n) as [-> | Hne]; auto.
      apply IH. lia.
    + right. exists n. repeat split; auto.
  - right. exists k. repeat split; auto.
Qed.

(** [flash_erase] in one equation for each way out of the loop. *)
Lemma flash_erase_complete (size : Z) (w : World Dev) :
  (forall j, (j < pages_of target size)%nat ->
             page_status target addr j (unlocked w) = FLASH_COMPLETE) ->
  flash_erase target addr size w
  = (FLASH_NO_ERR,
     do_Lock (after_erases target addr (pages_of target size)
                           (unlocked w))).
Proof.
  intros Hall. unfold pages_of in *. unfold flash_erase. fold (unlocked w).
  change 0 with (Z.of_nat 0).
  change (unlocked w) with (after_erases target addr 0 (unlocked w)) at 1.
  rewrite erase_loop_complete by (intros j Hj; apply Hall; lia).
  reflexivity.
Qed.

Lemma flash_erase_failure (size : Z) (k : nat) (w : World Dev) :
  (k < pages_of target size)%nat ->
  (forall j, (j < k)%nat ->
             page_status target addr j (unlocked w) = FLASH_COMPLETE) ->
  page_status target addr k (unlocked w) <> FLASH_COMPLETE ->
  flash_erase target addr size w
  = (FLASH_ERASE_ERR, do_Lock (after_erases target addr (S k) (unlocked w))).
Proof.
  intros Hk Hb Hf. unfold pages_of in *. unfold flash_erase. fold (unlocked w).
  change 0 with (Z.of_nat 0).
  change (unlocked w) with (after_erases target addr 0 (unlocked w)) at 1.
  rewrite (erase_loop_failure _ 0 k) by (auto; try lia; intros; apply Hb; lia).
  reflexivity.
Qed.

(** Whatever the medium reports, [flash_erase] goes through some number of
    pages, at most the page count, and locks. *)
Lemma flash_erase_shape (size : Z) (w : World Dev) :
  exists k, (k <= pages_of target size)%nat
    /\ snd (flash_erase target addr size w)
       = do_Lock (after_erases target addr k (unlocked w)).
Proof.
  destruct (first_failing_page (pages_of target size) (unlocked w))
    as [Hall | (m & Hm & Hb & Hf)].
  - exists (pages_of target size). split; [lia |].
    now rewrite flash_erase_complete.
  - exists (S m). split; [lia |].
    now rewrite (flash_erase_failure size m).
Qed.

End EraseLoop.


(* ================================================================== *)
(** ** Cells through an erase *)

Section EraseCells.

Context {Dev : Type} {M : Medium Dev}.
Variable target : Target.
Variable addr : Z.

Lemma dev_do_Lock (w : World Dev) : dev (do_Lock w) = FLASH_Lock (dev w).
Proof. reflexivity. Qed.

Lemma dev_unlocked (w : World Dev) :
  dev (unlocked w) = FLASH_ClearFlag CLEARED_FLAGS (FLASH_Unlock (dev w)).
Proof. reflexivity. Qed.

Lemma calls_unlocked (w : World Dev) :
  calls (unlocked w) = calls w ++ [CallUnlock; CallClearFlag CLEARED_FLAGS].
Proof.
  unfold unlocked, do_ClearFlag, do_Unlock, record. cbn [calls].
  now rewrite <- app_assoc.
Qed.

Lemma same_cells_unlocked (w : World Dev) :
  unlock_keeps_cells -> clearflag_keeps_cells ->
  same_cells (dev w) (dev (unlocked w)).
Proof.
  intros Hu Hc b. rewrite dev_unlocked.
  now rewrite (Hc CLEARED_FLAGS (FLASH_Unlock (dev w)) b), (Hu (dev w) b).
Qed.

(** Byte [o] of page [j] is byte [PAGE_SIZE * j + o] of the range. *)
Lemma page_byte (j : nat) (o : Z) :
  byte_addr (page_addr target addr j) o
  = byte_addr addr (PAGE_SIZE target * Z.of_nat j + o).
Proof. rewrite page_addr_flat. apply byte_addr_offset. Qed.

(** Every byte of the first [k] pages lies in one of them. *)
Lemma range_byte_in_page (k : nat) (o : Z) :
  0 <= o < Z.of_nat k * PAGE_SIZE target ->
  exists (j : nat) (o' : Z),
    (j < k)%nat /\ 0 <= o' < PAGE_SIZE target
    /\ byte_addr addr o = byte_addr (page_addr target addr j) o'.
Proof.
  intros Ho. pose proof (PAGE_SIZE_pos target) as Hp.
  pose proof (Z.div_mod o (PAGE_SIZE target) ltac:(lia)) as Hdm.
  pose proof (Z.mod_pos_bound o (PAGE_SIZE target) Hp) as Hb.
  assert (Hq : 0 <= o / PAGE_SIZE target) by (apply Z.div_pos; lia).
  assert (Hq' : o / PAGE_SIZE target < Z.of_nat k).
  { apply Z.div_lt_upper_bound; lia. }
  exists (Z.to_nat (o / PAGE_SIZE target)), (o mod PAGE_SIZE target).
  repeat split; try lia.
  rewrite page_byte, Z2Nat.id by lia. f_equal. lia.
Qed.

Lemma erased_stays_through_erases (k : nat) (w : World Dev) (b : Z) :
  erase_keeps_erased ->
  cell (dev w) b = ERASED ->
  cell (dev (after_erases target addr k w)) b = ERASED.
Proof.
  intros Hkeep Hb. induction k as [| k IH]; cbn [after_erases]; auto.
  cbn [do_ErasePage snd record dev]. now apply Hkeep.
Qed.

(** A page that erased stays erased while the later pages are erased. *)
Lemma erased_page_stays (j k : nat) (w : World Dev) :
  erase_keeps_erased ->
  erase_clears_page target (page_addr target addr j) ->
  (j < k)%nat ->
  page_status target addr j w = FLASH_COMPLETE ->
  erased_range (dev (after_erases target addr k w))
               (page_addr target addr j) (PAGE_SIZE target).
Proof.
  intros Hkeep Hclear Hjk Hst o Ho.
  induction k as [| k IH]; [lia |].
  destruct (Nat.eq_dec j k) as [-> | Hne].
  - cbn [after_erases do_ErasePage snd record dev].
    apply Hclear; auto.
  - cbn [after_erases do_ErasePage snd record dev].
    apply Hkeep, IH. lia.
Qed.

(** Once the first [k] pages have erased, the [k] pages from [addr] on are
    erased. *)
Lemma erased_after_erases (k : nat) (w : World Dev) :
  erase_keeps_erased ->
  (forall j, (j < k)%nat ->
             erase_clears_page target (page_addr target addr j)) ->
  (forall j, (j < k)%nat ->
             page_status target addr j w = FLASH_COMPLETE) ->
  forall k', (k <= k')%nat ->
  erased_range (dev (after_erases target addr k' w)) addr
               (Z.of_nat k * PAGE_SIZE target).
Proof.
  intros Hkeep Hclear Hst k' Hk' o Ho.
  destruct (range_byte_in_page k o Ho) as (j & o' & Hj & Ho' & ->).
  apply (erased_page_stays j k' w); auto. lia.
Qed.

(** Erasing pages that are erased already: every erase completes and no cell
    changes. *)
Lemma reerase_unchanged (n : nat) (w : World Dev) :
  erase_keeps_erased ->
  (forall j, (j < n)%nat ->
             erase_is_local target (page_addr target addr j)) ->
  (forall j, (j < n)%nat ->
             erase_of_erased_completes target (page_addr target addr j)) ->
  erased_range (dev w) addr (Z.of_nat n * PAGE_SIZE target) ->
  forall k, (k <= n)%nat ->
    same_cells (dev w) (dev (after_erases target addr k w))
    /\ forall j, (j < k)%nat -> page_status target addr j w = FLASH_COMPLETE.
Proof.
  intros Hkeep Hlocal Hcompl Hrange. pose proof (PAGE_SIZE_pos target) as Hp.
  assert (Hpage : forall j d, (j < n)%nat -> same_cells (dev w) d ->
            erased_range d (page_addr target addr j) (PAGE_SIZE target)).
  { intros j d Hj Hsame o Ho. rewrite Hsame, page_byte. apply Hrange. nia. }
  induction k as [| k IH]; intros Hk.
  - split; [intros b; reflexivity | intros j Hj; lia].
  - destruct IH as [Hsame Hst]; [lia |]. split.
    + intros b. cbn [after_erases do_ErasePage snd record dev].
      set (d := dev (after_erases target addr k w)) in *.
      set (p := page_addr target addr k).
      destruct (Z.eq_dec (cell d b) ERASED) as [He | Hne].
      * rewrite (Hkeep p d b He). rewrite <- He. apply Hsame.
      * rewrite <- (Hsame b). apply (Hlocal k); [lia |].
        intros o Ho Hb. apply Hne. rewrite Hb. apply (Hpage k d); auto.
    + intros j Hj. destruct (Nat.eq_dec j k) as [-> | Hne]; [| apply Hst; lia].
      unfold page_status. cbn [do_ErasePage fst].
      apply (Hcompl k); [lia |]. apply Hpage; auto.
Qed.

End EraseCells.

(* ================================================================== *)
(** ** The simulated medium behaves as a medium should *)

Section Simulation.

Variable target : Target.
Variable protected : Z -> bool.

Lemma sim_unlock_keeps_cells :
  unlock_keeps_cells (M := sim_medium target protected).
Proof. intros d b. reflexivity. Qed.

Lemma sim_clearflag_keeps_cells :
  clearflag_keeps_cells (M := sim_medium target protected).
Proof. intros f d b. reflexivity. Qed.

Lemma sim_lock_keeps_cells :
  lock_keeps_cells (M := sim_medium target protected).
Proof. intros d b. reflexivity. Qed.

Lemma sim_program_is_local :
  program_is_local (M := sim_medium target protected).
Proof.
  intros a v d b Hb. cbn. unfold sim_ProgramWord.
  destruct (protected (page_base target a)); cbn; [reflexivity |].
  pose proof (Hb 0 ltac:(lia)) as H0. pose proof (Hb 1 ltac:(lia)) as H1.
  pose proof (Hb 2 ltac:(lia)) as H2. pose proof (Hb 3 ltac:(lia)) as H3.
  apply Z.eqb_neq in H0, H1, H2, H3. now rewrite H0, H1, H2, H3.
Qed.

Lemma sim_erase_keeps_erased :
  erase_keeps_erased (M := sim_medium target protected).
Proof.
  intros p d b Hb. cbn in *. unfold sim_ErasePage.
  destruct (protected (page_base target p)); cbn; [assumption |].
  now destruct ((page_base target p <=? b)
                && (b <? page_base target p + PAGE_SIZE target)).
Qed.

Lemma aligned_page_byte (p o : Z) :
  page_aligned target p -> 0 <= o < PAGE_SIZE target -> byte_addr p o = p + o.
Proof.
  intros (_ & H0 & H1) Ho. unfold byte_addr. apply wrap32_small. lia.
Qed.

Lemma aligned_page_base (p : Z) :
  page_aligned target p -> page_base target p = p.
Proof. intros (Hm & _). unfold page_base. lia. Qed.

Lemma sim_erase_clears_page (p : Z) :
  page_aligned target p ->
  erase_clears_page (M := sim_medium target protected) target p.
Proof.
  intros Hp d Hst o Ho. cbn in *. unfold sim_ErasePage in *.
  rewrite (aligned_page_base p Hp) in *.
  destruct (protected p); cbn in *; [discriminate |].
  rewrite (aligned_page_byte p o Hp Ho).
  replace (p <=? p + o) with true by (symmetry; apply Z.leb_le; lia).
  replace (p + o <? p + PAGE_SIZE target) with true
    by (symmetry; apply Z.ltb_lt; lia).
  reflexivity.
Qed.

Lemma sim_erase_is_local (p : Z) :
  page_aligned target p ->
  erase_is_local (M := sim_medium target protected) target p.
Proof.
  intros Hp d b Hb. cbn. unfold sim_ErasePage.
  rewrite (aligned_page_base p Hp).
  destruct (protected p); cbn; [reflexivity |].
  destruct ((p <=? b) && (b <? p + PAGE_SIZE target)) eqn:E; [| reflexivity].
  apply andb_prop in E. destruct E as [E1 E2].
  apply Z.leb_le in E1. apply Z.ltb_lt in E2.
  exfalso. apply (Hb (b - p)); [lia |].
  rewrite (aligned_page_byte p (b - p) Hp); lia.
Qed.

Lemma sim_erase_of_erased_completes (p : Z) :
  protected (page_base target p) = false ->
  erase_of_erased_completes (M := sim_medium target protected) target p.
Proof.
  intros Hu d _. cbn. unfold sim_ErasePage. now rewrite Hu.
Qed.

End Simulation.


(* ================================================================== *)
(** ** The read loop *)

Section ReadLoop.

Context {Dev : Type} {M : Medium Dev}.

Lemma word_addr_next (addr : Z) (k : nat) :
  wrap32 (word_addr addr k + 4) = word_addr addr (S k).
Proof. unfold word_addr. rewrite wrap32_add_l. f_equal. lia. Qed.

Lemma word_addr_shift (addr : Z) (k : nat) :
  word_addr (wrap32 (addr + 4)) k = word_addr addr (S k).
Proof. unfold word_addr. rewrite wrap32_add_l. f_equal. lia. Qed.

Lemma word_byte_addr (addr : Z) (k : nat) (t : Z) :
  byte_addr (word_addr addr k) t = byte_addr addr (4 * Z.of_nat k + t).
Proof. unfold word_addr. apply byte_addr_offset. Qed.

Lemma load32_wrap (d : Dev) (a : Z) : load32 d (wrap32 a) = load32 d a.
Proof. unfold load32. now rewrite !byte_addr_wrap. Qed.

Lemma load32_same (d d' : Dev) (a : Z) :
  (forall t, 0 <= t < 4 -> cell d' (byte_addr a t) = cell d (byte_addr a t)) ->
  load32 d' a = load32 d a.
Proof.
  intros H. unfold load32.
  now rewrite (H 0), (H 1), (H 2), (H 3) by lia.
Qed.

(** The words [flash_read] stores are the words at [addr], [addr + 4], ...,
    in that order. *)
Lemma read_loop_words (d : Dev) (n : nat) (addr : Z) :
  read_loop n addr d = map (fun i => load32 d (word_addr addr i)) (seq 0 n).
Proof.
  revert addr. induction n as [| n IH]; intros addr; cbn [read_loop seq map].
  - reflexivity.
  - f_equal.
    + unfold word_addr. now rewrite load32_wrap, Z.mul_0_r, Z.add_0_r.
    + rewrite IH, <- seq_shift, map_map. apply map_ext.
      intros i. now rewrite word_addr_shift.
Qed.

(** Reading from an erased range gives words with all bits set. *)
Lemma read_of_erased_range (d : Dev) (addr n : Z) (count : nat) :
  erased_range d addr n ->
  4 * Z.of_nat count <= n ->
  read_loop count addr d = repeat ERASED_WORD count.
Proof.
  intros Herased Hn. rewrite read_loop_words.
  rewrite (map_ext_in _ (fun _ => ERASED_WORD)).
  - now rewrite map_const, length_seq.
  - intros i Hi. apply in_seq in Hi. unfold load32.
    rewrite !word_byte_addr, !Herased by lia. reflexivity.
Qed.

End ReadLoop.

(* ================================================================== *)
(** ** The write loop *)

Section WriteLoop.

Context {Dev : Type} {M : Medium Dev}.
Variable addr : Z.
Variable buf : nat -> Z.

Lemma words_of_spec (size : Z) :
  0 <= size ->
  forall k : nat, (k < words_of size)%nat <-> 4 * Z.of_nat k < size.
Proof.
  intros Hs k. unfold words_of.
  pose proof (Z.div_mod (size + 3) 4 ltac:(lia)) as Hdm.
  pose proof (Z.mod_pos_bound (size + 3) 4 ltac:(lia)) as Hb.
  assert (0 <= (size + 3) / 4) by (apply Z.div_pos; lia).
  split; intros H1; lia.
Qed.

Lemma calls_after_programs (k : nat) (w : World Dev) :
  calls (after_programs addr buf k w)
  = calls w
    ++ map (fun i => CallProgramWord (word_addr addr i) (buf i)) (seq 0 k).
Proof.
  induction k as [| k IH]; cbn [after_programs].
  - cbn. now rewrite app_nil_r.
  - cbn [do_ProgramWord snd record calls]. rewrite IH, seq_S, map_app.
    cbn [map Nat.add]. now rewrite app_assoc.
Qed.

(** One turn of the loop at word [k]. *)
Lemma write_loop_step (fuel k : nat) (size : Z) (w : World Dev) :
  no_wrap size ->
  write_loop (S fuel) (word_addr addr k) buf k (4 * Z.of_nat k) size
             (after_programs addr buf k w)
  = if (k <? words_of size)%nat then
      if verified addr buf k w
      then write_loop fuel (word_addr addr (S k)) buf (S k)
                      (4 * Z.of_nat (S k)) size
                      (after_programs addr buf (S k) w)
      else Some (FLASH_WRITE_ERR, after_programs addr buf (S k) w)
    else Some (FLASH_NO_ERR, after_programs addr buf k w).
Proof.
  intros [Hs0 Hs1]. cbn [write_loop].
  pose proof (words_of_spec size Hs0 k) as Hk.
  destruct (4 * Z.of_nat k <? size) eqn:E.
  - apply Z.ltb_lt in E.
    replace (k <? words_of size)%nat with true
      by (symmetry; apply Nat.ltb_lt; tauto).
    destruct (do_ProgramWord (word_addr addr k) (buf k)
                             (after_programs addr buf k w)) as [st w1] eqn:Ep.
    assert (Hw1 : w1 = after_programs addr buf (S k) w)
      by (cbn [after_programs]; now rewrite Ep).
    subst w1. unfold verified.
    destruct (load32 (dev (after_programs addr buf (S k) w))
                     (word_addr addr k) =? buf k); cbn [negb].
    + rewrite word_addr_next. do 2 f_equal.
      rewrite wrap32_small; lia.
    + reflexivity.
  - apply Z.ltb_ge in E.
    replace (k <? words_of size)%nat with false; [reflexivity |].
    symmetry. apply Nat.ltb_ge.
    destruct (Nat.le_gt_cases (words_of size) k); auto.
    apply Hk in H. lia.
Qed.

(** All read-backs match: the loop programs every word and is left through
    its condition. *)
Lemma write_loop_pass (size : Z) (w : World Dev) (fuel k : nat) :
  no_wrap size ->
  (k <= words_of size)%nat ->
  (words_of size - k < fuel)%nat ->
  (forall j, (k <= j < words_of size)%nat -> verified addr buf j w = true) ->
  write_loop fuel (word_addr addr k) buf k (4 * Z.of_nat k) size
             (after_programs addr buf k w)
  = Some (FLASH_NO_ERR, after_programs addr buf (words_of size) w).
Proof.
  intros Hs. revert k.
  induction fuel as [| fuel IH]; intros k Hk Hfuel Hall; [lia |].
  rewrite write_loop_step by assumption.
  destruct (k <? words_of size)%nat eqn:E.
  - apply Nat.ltb_lt in E. rewrite Hall by lia.
    apply IH; try lia. intros j Hj. apply Hall. lia.
  - apply Nat.ltb_ge in E. now replace k with (words_of size) by lia.
Qed.

(** A read-back does not match: the loop is left right there. *)
Lemma write_loop_mismatch (size : Z) (w : World Dev) (fuel k m : nat) :
  no_wrap size ->
  (k <= m < words_of size)%nat ->
  (m - k < fuel)%nat ->
  (forall j, (k <= j < m)%nat -> verified addr buf j w = true) ->
  verified addr buf m w = false ->
  write_loop fuel (word_addr addr k) buf k (4 * Z.of_nat k) size
             (after_programs addr buf k w)
  = Some (FLASH_WRITE_ERR, after_programs addr buf (S m) w).
Proof.
  intros Hs. revert k.
  induction fuel as [| fuel IH]; intros k Hk Hfuel Hall Hbad; [lia |].
  rewrite write_loop_step by assumption.
  replace (k <? words_of size)%nat with true
    by (symmetry; apply Nat.ltb_lt; lia).
  destruct (Nat.eq_dec k m) as [-> | Hne].
  - now rewrite Hbad.
  - rewrite Hall by lia. apply IH; try lia; auto.
    intros j Hj. apply Hall. lia.
Qed.

(** More fuel does not change a result. *)
Lemma write_loop_more_fuel (fuel fuel' : nat) (a : Z) (k : nat) (i size : Z)
      (w : World Dev) (r : FlashErrCode * World Dev) :
  (fuel <= fuel')%nat ->
  write_loop fuel a buf k i size w = Some r ->
  write_loop fuel' a buf k i size w = Some r.
Proof.
  revert fuel' a k i w.
  induction fuel as [| fuel IH]; intros fuel' a k i w Hle H; [discriminate |].
  destruct fuel' as [| fuel']; [lia |]. cbn [write_loop] in *.
  destruct (i <? size); [| assumption].
  destruct (do_ProgramWord a (buf k) w) as [st w1].
  destruct (negb (load32 (dev w1) a =? buf k)); [assumption |].
  apply IH; [lia | assumption].
Qed.

(** Among [n] words either every read-back matches, or there is a first one
    that does not. *)
Lemma first_mismatch (n : nat) (w : World Dev) :
  (forall j, (j < n)%nat -> verified addr buf j w = true)
  \/ exists m, (m < n)%nat
       /\ (forall j, (j < m)%nat -> verified addr buf j w = true)
       /\ verified addr buf m w = false.
Proof.
  induction n as [| n [IH | (m & Hm & Hb & Hf)]].
  - left. intros j Hj. lia.
  - destruct (verified addr buf n w) eqn:E.
    + left. intros j Hj. destruct (Nat.eq_dec j n) as [-> | Hne]; auto.
      apply IH. lia.
    + right. exists n. repeat split; auto.
  - right. exists m. repeat split; auto.
Qed.

(** With a counter that wraps the loop is never left through its condition:
    while the read-backs match it goes on. *)
Lemma write_loop_wraps (size : Z) (w : World Dev) (fuel k : nat) :
  two32 - 4 < size ->
  (forall j, verified addr buf j w = true) ->
  write_loop fuel (word_addr addr k) buf k (wrap32 (4 * Z.of_nat k)) size
             (after_programs addr buf k w) = None.
Proof.
  intros Hs Hall. revert k.
  induction fuel as [| fuel IH]; intros k; cbn [write_loop]; [reflexivity |].
  assert (Hi : wrap32 (4 * Z.of_nat k) <= two32 - 4).
  { pose proof (wrap32_range (4 * Z.of_nat k)) as Hr.
    assert (Hm : wrap32 (4 * Z.of_nat k) mod 4 = 0).
    { unfold wrap32.
      rewrite Z.mod_mod_divide by (exists 1073741824; reflexivity).
      now rewrite Z.mul_comm, Z.mod_mul by lia. }
    pose proof (Z.div_mod (wrap32 (4 * Z.of_nat k)) 4 ltac:(lia)) as Hdm.
    unfold two32 in *. lia. }
  replace (wrap32 (4 * Z.of_nat k) <? size) with true
    by (symmetry; apply Z.ltb_lt; lia).
  destruct (do_ProgramWord (word_addr addr k) (buf k)
                           (after_programs addr buf k w)) as [st w1] eqn:Ep.
  assert (Hw1 : w1 = after_programs addr buf (S k) w)
    by (cbn [after_programs]; now rewrite Ep).
  subst w1. pose proof (Hall k) as Hv. unfold verified in Hv.
  rewrite Hv. cbn [negb]. rewrite word_addr_next.
  replace (wrap32 (wrap32 (4 * Z.of_nat k) + 4))
    with (wrap32 (4 * Z.of_nat (S k)))
    by (rewrite wrap32_add_l; f_equal; lia).
  apply IH.
Qed.

End WriteLoop.


(* ================================================================== *)
(** ** flash_write as a whole *)

Section WriteCall.

Context {Dev : Type} {M : Medium Dev}.
Variable addr : Z.
Variable buf : nat -> Z.
Hypothesis addr_range : 0 <= addr < two32.

Lemma word_addr_0 : word_addr addr 0 = addr.
Proof.
  unfold word_addr. rewrite Z.mul_0_r, Z.add_0_r.
  now apply wrap32_small.
Qed.

Lemma flash_write_pass (size : Z) (w : World Dev) (fuel : nat) :
  no_wrap size ->
  (words_of size < fuel)%nat ->
  (forall j, (j < words_of size)%nat ->
             verified addr buf j (unlocked w) = true) ->
  flash_write fuel addr buf size w
  = Some (FLASH_NO_ERR,
          do_Lock (after_programs addr buf (words_of size) (unlocked w))).
Proof.
  intros Hs Hfuel Hall. unfold flash_write. fold (unlocked w).
  pose proof (write_loop_pass addr buf size (unlocked w) fuel 0 Hs) as H.
  rewrite word_addr_0 in H. cbn [after_programs Z.of_nat Z.mul] in H.
  rewrite H; [reflexivity | lia | lia |].
  intros j Hj. apply Hall. lia.
Qed.

Lemma flash_write_mismatch (size : Z) (w : World Dev) (fuel m : nat) :
  no_wrap size ->
  (m < words_of size)%nat ->
  (m < fuel)%nat ->
  (forall j, (j < m)%nat -> verified addr buf j (unlocked w) = true) ->
  verified addr buf m (unlocked w) = false ->
  flash_write fuel addr buf size w
  = Some (FLASH_WRITE_ERR,
          do_Lock (after_programs addr buf (S m) (unlocked w))).
Proof.
  intros Hs Hm Hfuel Hall Hbad. unfold flash_write. fold (unlocked w).
  pose proof (write_loop_mismatch addr buf size (unlocked w) fuel 0 m Hs) as H.
  rewrite word_addr_0 in H. cbn [after_programs Z.of_nat Z.mul] in H.
  rewrite H; [reflexivity | lia | lia | | assumption].
  intros j Hj. apply Hall. lia.
Qed.

Lemma flash_write_more_fuel (fuel fuel' : nat) (size : Z) (w : World Dev)
      (r : FlashErrCode * World Dev) :
  (fuel <= fuel')%nat ->
  flash_write fuel addr buf size w = Some r ->
  flash_write fuel' addr buf size w = Some r.
Proof.
  intros Hle. unfold flash_write.
  destruct (write_loop fuel addr buf 0 0 size _) as [[r0 w0] |] eqn:E;
    [| discriminate].
  now rewrite (write_loop_more_fuel buf fuel fuel' _ _ _ _ _ _ Hle E).
Qed.

(** Whatever the fuel, a result of [flash_write] is one of the two above. *)
Lemma flash_write_inv (size : Z) (w : World Dev) (fuel : nat)
      (r : FlashErrCode) (w' : World Dev) :
  no_wrap size ->
  flash_write fuel addr buf size w = Some (r, w') ->
  (r = FLASH_NO_ERR
   /\ w' = do_Lock (after_programs addr buf (words_of size) (unlocked w))
   /\ forall j, (j < words_of size)%nat ->
                verified addr buf j (unlocked w) = true)
  \/ exists m, (m < words_of size)%nat
       /\ r = FLASH_WRITE_ERR
       /\ w' = do_Lock (after_programs addr buf (S m) (unlocked w))
       /\ (forall j, (j < m)%nat -> verified addr buf j (unlocked w) = true)
       /\ verified addr buf m (unlocked w) = false.
Proof.
  intros Hs Hrun.
  apply (flash_write_more_fuel fuel (fuel + S (words_of size))) in Hrun;
    [| lia].
  destruct (first_mismatch addr buf (words_of size) (unlocked w))
    as [Hall | (m & Hm & Hb & Hf)].
  - left. rewrite flash_write_pass in Hrun by (auto; lia).
    injection Hrun as <- <-. auto.
  - right. exists m.
    rewrite (flash_write_mismatch size w _ m) in Hrun by (auto; lia).
    injection Hrun as <- <-. auto.
Qed.

Lemma calls_write (k : nat) (w : World Dev) :
  calls (do_Lock (after_programs addr buf k (unlocked w)))
  = calls w ++ write_calls addr buf k.
Proof.
  unfold do_Lock, record. cbn [calls].
  rewrite calls_after_programs, calls_unlocked. unfold write_calls, word_addr.
  now rewrite <- !app_assoc.
Qed.

(** *** Cells through the programming of words *)

Lemma programs_keep_other_cells (k n : nat) (w : World Dev) (b : Z) :
  program_is_local ->
  (k <= n)%nat ->
  (forall j t, (k <= j < n)%nat -> 0 <= t < 4 ->
               b <> byte_addr (word_addr addr j) t) ->
  cell (dev (after_programs addr buf n w)) b
  = cell (dev (after_programs addr buf k w)) b.
Proof.
  intros Hlocal Hkn Hb. induction n as [| n IH].
  - now replace k with O by lia.
  - destruct (Nat.eq_dec k (S n)) as [-> | Hne]; [reflexivity |].
    cbn [after_programs do_ProgramWord snd record dev].
    rewrite Hlocal by (intros t Ht; apply Hb; lia).
    apply IH; [lia |]. intros j t Hj Ht. apply Hb; lia.
Qed.

(** A word whose read-back matched still reads as programmed once later
    words have been programmed. *)
Lemma verified_word_persists (j n : nat) (w : World Dev) :
  program_is_local ->
  4 * Z.of_nat n <= two32 ->
  (j < n)%nat ->
  verified addr buf j w = true ->
  load32 (dev (after_programs addr buf n w)) (word_addr addr j) = buf j.
Proof.
  intros Hlocal Hn Hj Hv. unfold verified in Hv. apply Z.eqb_eq in Hv.
  rewrite <- Hv. apply load32_same. intros t Ht.
  apply programs_keep_other_cells; [assumption | lia |].
  intros j' t' Hj' Ht' Heq. rewrite !word_byte_addr in Heq.
  unfold byte_addr in Heq. apply wrap32_offset_inj in Heq; lia.
Qed.

End WriteCall.


(* ================================================================== *)
(** * The properties of the specification *)

(* ------------------------------------------------------------------ *)
(** ** Region negotiation *)

(** C5. Negotiation is authoritative and deterministic.  Whatever size hint
    the caller passes (and whatever the other three objects hold), as long
    as the hint passes the alignment assertion [flash_port_init] returns
    [FLASH_NO_ERR] and hands out the same fixed values: the region starts
    100 KiB into the flash array and is one page long, hence a whole number
    of pages of the medium; the dataset is the table [default_env_set], five
    entries in the order of the source, the fourth being
    ("device_id", "1").  Two calls under one build configuration give the
    same outcome. *)
Theorem negotiate_is_authoritative (target : Target) (a a' : InitArgs) :
  env_size a mod 4 = 0 ->
  env_size a' mod 4 = 0 ->
  flash_port_init target a = InitReturned FLASH_NO_ERR (negotiated target)
  /\ flash_port_init target a' = flash_port_init target a
  /\ env_addr (negotiated target) = FLASH_BASE + 100 * 1024
  /\ env_size (negotiated target) = 1 * PAGE_SIZE target
  /\ env_size (negotiated target) mod PAGE_SIZE target = 0
  /\ default_env (negotiated target)
     = [ {| key := "iap_need_copy_app"; value := "0" |};
         {| key := "iap_copy_app_size"; value := "0" |};
         {| key := "stop_in_bootloader"; value := "0" |};
         {| key := "device_id"; value := "1" |};
         {| key := "boot_times"; value := "0" |} ]
  /\ In {| key := "device_id"; value := "1" |} (default_env (negotiated target))
  /\ default_env_size (negotiated target)
     = Z.of_nat (List.length (default_env (negotiated target))).
Proof.
  intros Ha Ha'.
  assert (Hinit : forall x, env_size x mod 4 = 0 ->
            flash_port_init target x
            = InitReturned FLASH_NO_ERR (negotiated target)).
  { intros x Hx. unfold flash_port_init. rewrite Hx. reflexivity. }
  repeat split.
  - now apply Hinit.
  - now rewrite !Hinit.
  - cbn [negotiated env_size]. unfold FLASH_ENV_SECTION_SIZE.
    rewrite Z.mul_1_l. apply Z.mod_same. pose proof (PAGE_SIZE_pos target). lia.
  - cbn. auto.
Qed.

Lemma negotiate_is_authoritative_witness :
  let a := {| env_addr := 0; env_size := 8;
              default_env := []; default_env_size := 0 |} in
  let a' := {| env_addr := 7; env_size := 4096;
               default_env := default_env_set; default_env_size := 9 |} in
  env_size a mod 4 = 0
  /\ env_size a' mod 4 = 0
  /\ flash_port_init STM32F10X_MD a
     = InitReturned FLASH_NO_ERR (negotiated STM32F10X_MD)
  /\ flash_port_init STM32F10X_MD a' = flash_port_init STM32F10X_MD a
  /\ env_size (negotiated STM32F10X_MD) = 1024.
Proof.
  intros a a'.
  pose proof (negotiate_is_authoritative STM32F10X_MD a a'
                eq_refl eq_refl) as (H1 & H2 & _ & H4 & _).
  repeat split; assumption.
Defined.

(** C6. The size hint is validated before anything else.  A hint that is
    not a multiple of 4 makes the first statement of [flash_port_init], the
    assertion, fail: the outcome is the fatal fault, none of the caller's
    four objects has been written (the misaligned size is neither truncated
    nor replaced), and nothing is returned.  A hint that is a multiple of 4
    passes the assertion and the call returns [FLASH_NO_ERR]. *)
Theorem misaligned_hint_is_a_fault (target : Target) (a : InitArgs) :
  (env_size a mod 4 <> 0 -> flash_port_init target a = ConfigurationFault a)
  /\ (env_size a mod 4 = 0 ->
      exists out, flash_port_init target a = InitReturned FLASH_NO_ERR out).
Proof.
  unfold flash_port_init. split; intros H.
  - apply Z.eqb_neq in H. now rewrite H.
  - rewrite H. cbn [Z.eqb]. eexists. reflexivity.
Qed.

Lemma misaligned_hint_is_a_fault_witness :
  let bad := {| env_addr := 0; env_size := 1022;
                default_env := []; default_env_size := 0 |} in
  let good := {| env_addr := 0; env_size := 1024;
                 default_env := []; default_env_size := 0 |} in
  flash_port_init STM32F10X_HD bad = ConfigurationFault bad
  /\ exists out, flash_port_init STM32F10X_HD good
                 = InitReturned FLASH_NO_ERR out.
Proof.
  intros bad good. split.
  - apply (proj1 (misaligned_hint_is_a_fault STM32F10X_HD bad)).
    vm_compute. discriminate.
  - apply (proj2 (misaligned_hint_is_a_fault STM32F10X_HD good)).
    reflexivity.
Defined.

(* ------------------------------------------------------------------ *)
(** ** Reader *)

(** C7. [flash_read] copies [count] words and nothing else: for every
    address and count, aligned and in range or not, the buffer receives
    [count] words, the [i]-th being the four bytes that the medium stores
    at [addr + 4 * i], ..., [addr + 4 * i + 3] (addresses modulo 2^32),
    least significant first, as they are stored; the result is
    [FLASH_NO_ERR] in every case; the device and the list of vendor calls
    are the ones before the call. *)
Theorem read_copies_words {Dev : Type} {M : Medium Dev}
        (addr count : Z) (w : World Dev) :
  flash_read addr count w
  = (FLASH_NO_ERR,
     map (fun i =>
            cell (dev w) (wrap32 (addr + 4 * Z.of_nat i + 0))
            + 256 * cell (dev w) (wrap32 (addr + 4 * Z.of_nat i + 1))
            + 65536 * cell (dev w) (wrap32 (addr + 4 * Z.of_nat i + 2))
            + 16777216 * cell (dev w) (wrap32 (addr + 4 * Z.of_nat i + 3)))
         (seq 0 (Z.to_nat count)),
     w)
  /\ List.length (snd (fst (flash_read addr count w))) = Z.to_nat count.
Proof.
  unfold flash_read. rewrite read_loop_words. cbn [fst snd]. split.
  - do 2 f_equal. apply map_ext. intros i. unfold load32.
    rewrite !word_byte_addr. unfold byte_addr.
    now rewrite !Z.add_assoc.
  - now rewrite length_map, length_seq.
Qed.

(* ------------------------------------------------------------------ *)
(** ** Eraser *)

Lemma calls_erase {Dev : Type} {M : Medium Dev}
      (target : Target) (addr : Z) (k : nat) (w : World Dev) :
  calls (do_Lock (after_erases target addr k (unlocked w)))
  = calls w ++ erase_calls target addr k.
Proof.
  unfold do_Lock, record. cbn [calls].
  rewrite calls_after_erases, calls_unlocked. unfold erase_calls.
  rewrite map_map.
  rewrite (map_ext (fun i => CallErasePage (page_addr target addr i))
                   (fun i => CallErasePage
                               (wrap32 (addr + Z.of_nat i * PAGE_SIZE target))))
    by (intros i; now rewrite page_addr_flat, Z.mul_comm).
  now rewrite <- !app_assoc.
Qed.

Lemma pages_of_positive (target : Target) (size : Z) :
  0 < size -> (1 <= pages_of target size)%nat.
Proof.
  intros Hs. unfold pages_of.
  pose proof (erase_pages_bounds target size ltac:(lia)) as (H0 & H1 & H2).
  pose proof (PAGE_SIZE_pos target). nia.
Qed.

(** From a page boundary the pages of an erase are at page boundaries, and
    no address wraps. *)
Lemma page_addr_aligned (target : Target) (addr : Z) (n i : nat) :
  page_aligned target addr ->
  addr + Z.of_nat n * PAGE_SIZE target <= two32 ->
  (i < n)%nat ->
  page_addr target addr i = addr + Z.of_nat i * PAGE_SIZE target
  /\ page_aligned target (page_addr target addr i).
Proof.
  intros (Hmod & H0 & H1) Hend Hi.
  pose proof (PAGE_SIZE_pos target) as Hpos.
  assert (Hflat : page_addr target addr i
                  = addr + Z.of_nat i * PAGE_SIZE target).
  { rewrite page_addr_flat, Z.mul_comm. apply wrap32_small. nia. }
  split; [exact Hflat |]. rewrite Hflat. repeat split.
  - now rewrite Z.mod_add by lia.
  - nia.
  - nia.
Qed.


(** C4. Erase fails fast.  If page [k] is the first page whose erase the
    medium does not report complete, [flash_erase] makes exactly the calls
    unlock, clear the flags, [FLASH_ErasePage] for the pages [0] to [k] in
    order, lock: no page after the failing one is gone through, and the
    result is [FLASH_ERASE_ERR].  On a medium whose completed page erase
    leaves the page erased and on which erased cells stay erased through
    later erases and the final lock, the [k] pages before the failing one
    read as erased when the call returns. *)
Theorem erase_stops_at_first_failure {Dev : Type} {M : Medium Dev}
        (target : Target) (addr size : Z) (w : World Dev) (k : nat) :
  (k < pages_of target size)%nat ->
  (forall j, (j < k)%nat ->
             page_status target addr j (unlocked w) = FLASH_COMPLETE) ->
  page_status target addr k (unlocked w) <> FLASH_COMPLETE ->
  let out := flash_erase target addr size w in
  fst out = FLASH_ERASE_ERR
  /\ calls (snd out) = calls w ++ erase_calls target addr (S k)
  /\ (lock_keeps_cells ->
      erase_keeps_erased ->
      (forall j, (j < k)%nat ->
                 erase_clears_page target (page_addr target addr j)) ->
      erased_range (dev (snd out)) addr (Z.of_nat k * PAGE_SIZE target)).
Proof.
  intros Hk Hb Hf out.
  pose proof (flash_erase_failure target addr size k w Hk Hb Hf) as E.
  fold out in E. rewrite E. cbn [fst snd]. repeat split.
  - apply calls_erase.
  - intros Hlock Hkeep Hclear o Ho. rewrite dev_do_Lock, Hlock.
    apply (erased_after_erases target addr k (unlocked w)); auto.
Qed.


(** C9. An erase of 0 bytes.  The page count is 0, the loop body is never
    run: the only vendor calls are unlock, clear the flags and lock, no
    page is erased, and the result is [FLASH_NO_ERR].  The device has only
    gone through the three control routines; where these leave the cells
    alone, every address holds what it held before. *)
Theorem erase_of_nothing {Dev : Type} {M : Medium Dev}
        (target : Target) (addr : Z) (w : World Dev) :
  let out := flash_erase target addr 0 w in
  erase_pages target 0 = 0
  /\ fst out = FLASH_NO_ERR
  /\ calls (snd out)
     = calls w ++ [CallUnlock; CallClearFlag CLEARED_FLAGS; CallLock]
  /\ dev (snd out)
     = FLASH_Lock (FLASH_ClearFlag CLEARED_FLAGS (FLASH_Unlock (dev w)))
  /\ (unlock_keeps_cells -> clearflag_keeps_cells -> lock_keeps_cells ->
      same_cells (dev w) (dev (snd out))).
Proof.
  intros out.
  assert (H0 : erase_pages target 0 = 0) by (destruct target; reflexivity).
  assert (E : out = (FLASH_NO_ERR, do_Lock (unlocked w))).
  { unfold out, flash_erase. now rewrite H0. }
  rewrite E. cbn [fst snd]. repeat split; auto.
  - unfold do_Lock, record. cbn [calls]. rewrite calls_unlocked.
    now rewrite <- app_assoc.
  - intros Hu Hc Hl b.
    now rewrite dev_do_Lock, Hl, (same_cells_unlocked w Hu Hc b).
Qed.

(* ------------------------------------------------------------------ *)
(** ** Writer *)

Lemma words_of_whole (n : nat) : words_of (4 * Z.of_nat n) = n.
Proof.
  unfold words_of.
  replace ((4 * Z.of_nat n + 3) / 4) with (Z.of_nat n);
    [apply Nat2Z.id |].
  apply Z.div_unique with (r := 3); lia.
Qed.

Lemma no_wrap_whole (n : nat) :
  4 * Z.of_nat n < two32 -> no_wrap (4 * Z.of_nat n).
Proof. unfold no_wrap, two32. lia. Qed.

Lemma map_seq_nth (f : nat -> Z) (l : list Z) :
  (forall i, (i < List.length l)%nat -> f i = nth i l 0) ->
  map f (seq 0 (List.length l)) = l.
Proof.
  intros H. apply nth_ext with (d := f O) (d' := 0).
  - now rewrite length_map, length_seq.
  - intros i Hi. rewrite length_map, length_seq in Hi.
    rewrite (nth_indep _ (f O) (f (List.length l)))
      by (now rewrite length_map, length_seq).
    rewrite map_nth, seq_nth by assumption. now apply H.
Qed.

(** C1. Round trip.  On a medium where programming a word touches the four
    bytes of that word only and locking leaves the cells alone, for every
    address and every sequence of words whose byte size fits [size_t]:
    [flash_write] returns (any fuel above the number of words is enough),
    and whenever it returns [FLASH_NO_ERR], a [flash_read] of as many words
    from the same address gives back exactly the words written.  This holds
    on any content before the write, in particular on a range that was just
    erased, and for any address, in particular a word-aligned one. *)
Theorem write_read_roundtrip {Dev : Type} {M : Medium Dev}
        (addr : Z) (data : list Z) (w : World Dev) :
  program_is_local ->
  lock_keeps_cells ->
  0 <= addr < two32 ->
  4 * Z.of_nat (List.length data) < two32 ->
  let size := 4 * Z.of_nat (List.length data) in
  (forall fuel, (List.length data < fuel)%nat ->
     exists r w', flash_write fuel addr (buffer data) size w = Some (r, w'))
  /\ (forall fuel w',
        flash_write fuel addr (buffer data) size w
        = Some (FLASH_NO_ERR, w') ->
        flash_read addr (Z.of_nat (List.length data)) w'
        = (FLASH_NO_ERR, data, w')).
Proof.
  intros Hlocal Hlock Haddr Hsize size.
  pose proof (no_wrap_whole _ Hsize) as Hnw. fold size in Hnw.
  assert (Hwords : words_of size = List.length data)
    by apply words_of_whole.
  split.
  - intros fuel Hfuel.
    destruct (first_mismatch addr (buffer data) (words_of size) (unlocked w))
      as [Hall | (m & Hm & Hb & Hf)].
    + do 2 eexists. apply flash_write_pass; auto. lia.
    + do 2 eexists. apply (flash_write_mismatch addr (buffer data) Haddr
                             size w fuel m); auto. lia.
  - intros fuel w' Hrun.
    destruct (flash_write_inv addr (buffer data) Haddr size w fuel _ _
                Hnw Hrun)
      as [(_ & -> & Hall) | (m & _ & Hr & _)]; [| discriminate].
    unfold flash_read. rewrite read_loop_words, Nat2Z.id. do 2 f_equal.
    apply map_seq_nth. intros i Hi.
    rewrite dev_do_Lock.
    rewrite (load32_same (dev (after_programs addr (buffer data)
                                 (words_of size) (unlocked w))))
      by (intros t _; apply Hlock).
    rewrite Hwords in *.
    apply verified_word_persists; auto. unfold two32 in *. lia.
Qed.

(** C3. Write verifies each word and fails fast.  A write of the words of
    [data] (a byte size that fits [size_t], fuel above the number of words)
    programs them one [FLASH_ProgramWord] at a time at [addr], [addr + 4],
    ... in this order; after each one it reads the word back from the
    address just programmed ([verified]) and compares.  If every read-back
    matches, the call returns [FLASH_NO_ERR] after programming all the
    words.  If word [m] is the first whose read-back differs, the call
    returns [FLASH_WRITE_ERR] and has programmed the words [0] to [m] only:
    no word after the mismatch is attempted.  In that case, where
    programming a word touches the four bytes of that word only and locking
    leaves the cells alone, the words before [m] read as written when the
    call returns. *)
Theorem write_verifies_each_word {Dev : Type} {M : Medium Dev}
        (addr : Z) (data : list Z) (w : World Dev) (fuel : nat) :
  0 <= addr < two32 ->
  4 * Z.of_nat (List.length data) < two32 ->
  (List.length data < fuel)%nat ->
  let buf := buffer data in
  let run := flash_write fuel addr buf (4 * Z.of_nat (List.length data)) w in
  ((forall j, (j < List.length data)%nat ->
              verified addr buf j (unlocked w) = true) ->
   exists w', run = Some (FLASH_NO_ERR, w')
     /\ calls w' = calls w ++ write_calls addr buf (List.length data))
  /\ (forall m,
        (m < List.length data)%nat ->
        (forall j, (j < m)%nat -> verified addr buf j (unlocked w) = true) ->
        verified addr buf m (unlocked w) = false ->
        exists w', run = Some (FLASH_WRITE_ERR, w')
          /\ calls w' = calls w ++ write_calls addr buf (S m)
          /\ (program_is_local -> lock_keeps_cells ->
              forall j, (j < m)%nat ->
                load32 (dev w') (wrap32 (addr + 4 * Z.of_nat j))
                = nth j data 0)).
Proof.
  intros Haddr Hsize Hfuel buf run.
  pose proof (no_wrap_whole _ Hsize) as Hnw.
  pose proof (words_of_whole (List.length data)) as Hwords.
  split.
  - intros Hall. eexists. split.
    + unfold run. apply flash_write_pass; rewrite ?Hwords; auto.
    + rewrite Hwords. apply calls_write.
  - intros m Hm Hb Hf. eexists. split; [| split].
    + unfold run. apply (flash_write_mismatch addr buf Haddr _ w fuel m);
        auto; try lia; try (now rewrite Hwords).
    + apply calls_write.
    + intros Hlocal Hlock j Hj. rewrite dev_do_Lock.
      rewrite (load32_same (dev (after_programs addr buf (S m) (unlocked w))))
        by (intros t _; apply Hlock).
      apply (verified_word_persists addr buf j (S m)); auto;
        unfold two32 in *; lia.
Qed.

(** C10, with the bound the code needs.  [flash_write] programs whole words
    only.  For every byte size that is not a multiple of 4 and is at most
    2^32 - 4, the number of words that cover it is the quarter of the size
    rounded up, one more than the quarter rounded down, and these words
    reach 1 to 3 bytes beyond the size.  The call returns (fuel above the
    number of words).  When it returns [FLASH_NO_ERR] it has programmed
    exactly that many words, and the read-back made right after each of
    them gave the word programmed; it returns [FLASH_NO_ERR] when every
    read-back matches.  Otherwise it returns [FLASH_WRITE_ERR]: some word
    [m] below that number is the first whose read-back differs, and the
    call has programmed the whole words [0] to [m]. *)
Theorem write_rounds_up_to_whole_words {Dev : Type} {M : Medium Dev}
        (addr : Z) (buf : nat -> Z) (size : Z) (w : World Dev) (fuel : nat) :
  0 <= addr < two32 ->
  0 <= size <= two32 - 4 ->
  size mod 4 <> 0 ->
  let words := words_of size in
  Z.of_nat words = size / 4 + 1
  /\ size < 4 * Z.of_nat words <= size + 3
  /\ ((words < fuel)%nat ->
      exists r w', flash_write fuel addr buf size w = Some (r, w'))
  /\ ((words < fuel)%nat ->
      (forall j, (j < words)%nat -> verified addr buf j (unlocked w) = true) ->
      exists w', flash_write fuel addr buf size w = Some (FLASH_NO_ERR, w')
        /\ calls w' = calls w ++ write_calls addr buf words)
  /\ (forall r w',
        flash_write fuel addr buf size w = Some (r, w') ->
        (r = FLASH_NO_ERR
         /\ calls w' = calls w ++ write_calls addr buf words
         /\ forall j, (j < words)%nat ->
                      verified addr buf j (unlocked w) = true)
        \/ (exists m, (m < words)%nat
              /\ r = FLASH_WRITE_ERR
              /\ calls w' = calls w ++ write_calls addr buf (S m)
              /\ (forall j, (j < m)%nat ->
                            verified addr buf j (unlocked w) = true)
              /\ verified addr buf m (unlocked w) = false)).
Proof.
  intros Haddr Hsize Hmod words.
  assert (Hw : Z.of_nat words = size / 4 + 1).
  { unfold words, words_of.
    pose proof (Z.div_mod size 4 ltac:(lia)) as Hdm.
    pose proof (Z.mod_pos_bound size 4 ltac:(lia)) as Hb.
    assert (0 <= size / 4) by (apply Z.div_pos; lia).
    rewrite Z2Nat.id by (apply Z.div_pos; lia).
    symmetry. apply Z.div_unique with (r := size mod 4 - 1); lia. }
  pose proof (Z.div_mod size 4 ltac:(lia)) as Hdm.
  pose proof (Z.mod_pos_bound size 4 ltac:(lia)) as Hb.
  split; [exact Hw |]. split; [lia |]. split; [| split].
  - intros Hfuel.
    destruct (first_mismatch addr buf words (unlocked w))
      as [Hall | (m & Hm & Hbefore & Hbad)].
    + do 2 eexists. apply flash_write_pass; auto.
    + do 2 eexists.
      apply (flash_write_mismatch addr buf Haddr size w fuel m); auto. lia.
  - intros Hfuel Hall. eexists. split.
    + apply flash_write_pass; auto.
    + apply calls_write.
  - intros r w' Hrun.
    destruct (flash_write_inv addr buf Haddr size w fuel _ _ Hsize Hrun)
      as [(-> & -> & Hall) | (m & Hm & -> & -> & Hbefore & Hbad)].
    + left. split; [reflexivity |]. split; [apply calls_write | exact Hall].
    + right. exists m. split; [exact Hm |]. split; [reflexivity |].
      split; [apply calls_write |]. split; [exact Hbefore | exact Hbad].
Qed.

(* ------------------------------------------------------------------ *)
(** ** The properties at work on the simulated medium *)

Ltac aligned_by_computation :=
  unfold page_aligned; vm_compute; repeat split;
  try reflexivity; intro; discriminate.

Ltac by_arith :=
  unfold no_wrap, FLASH_ENV_START_ADDR, FLASH_BASE, two32 in *;
  cbn [List.length] in *; lia.

Section OnTheMediumDensityPart.

#[local] Existing Instance md_flash.

Lemma FLASH_ENV_START_ADDR_range : 0 <= FLASH_ENV_START_ADDR < two32.
Proof. by_arith. Qed.

Lemma write_read_roundtrip_witness :
  let erased := snd (flash_erase (M := md_flash) STM32F10X_MD
                                 FLASH_ENV_START_ADDR 8 (filled 0)) in
  let data := [2863311530; 1431655765] in
  exists w',
    flash_write (M := md_flash) 3 FLASH_ENV_START_ADDR (buffer data) 8 erased
    = Some (FLASH_NO_ERR, w')
    /\ flash_read (M := md_flash) FLASH_ENV_START_ADDR 2 w'
       = (FLASH_NO_ERR, data, w').
Proof.
  intros erased data.
  assert (Hsize : 4 * Z.of_nat (List.length data) < two32) by reflexivity.
  assert (Hrun : flash_write (M := md_flash) 3 FLASH_ENV_START_ADDR
                             (buffer data) 8 erased
                 = Some (FLASH_NO_ERR,
                         do_Lock (after_programs
                                    FLASH_ENV_START_ADDR (buffer data) 2
                                    (unlocked erased)))).
  { apply (flash_write_pass (M := md_flash) FLASH_ENV_START_ADDR (buffer data)
             FLASH_ENV_START_ADDR_range 8 erased 3).
    - by_arith.
    - apply Nat.ltb_lt. reflexivity.
    - intros [| [| j]] Hj; try reflexivity.
      exfalso. apply Nat.ltb_lt in Hj. discriminate. }
  eexists. split; [exact Hrun |].
  exact (proj2 (write_read_roundtrip (M := md_flash) FLASH_ENV_START_ADDR
                  data erased
                  (sim_program_is_local STM32F10X_MD unprotected)
                  (sim_lock_keeps_cells STM32F10X_MD unprotected)
                  FLASH_ENV_START_ADDR_range Hsize) 3%nat _ Hrun).
Defined.



Lemma erase_of_nothing_witness :
  let out := flash_erase STM32F10X_MD FLASH_ENV_START_ADDR 0 (filled 0) in
  fst out = FLASH_NO_ERR
  /\ calls (snd out) = [CallUnlock; CallClearFlag 53; CallLock]
  /\ same_cells (dev (filled 0)) (dev (snd out)).
Proof.
  intros out.
  destruct (erase_of_nothing STM32F10X_MD FLASH_ENV_START_ADDR (filled 0))
    as (_ & Hres & Hcalls & _ & Hcells).
  split; [exact Hres |]. split; [exact Hcalls |].
  exact (Hcells (sim_unlock_keeps_cells _ _) (sim_clearflag_keeps_cells _ _)
                (sim_lock_keeps_cells _ _)).
Defined.

Lemma write_verifies_each_word_witness :
  let w := dirty_word (FLASH_ENV_START_ADDR + 4) in
  exists w',
    flash_write 4 FLASH_ENV_START_ADDR (buffer [1; 2; 3]) 12 w
    = Some (FLASH_WRITE_ERR, w')
    /\ calls w'
       = [CallUnlock; CallClearFlag 53; CallProgramWord 134320128 1;
          CallProgramWord 134320132 2; CallLock]
    /\ load32 (dev w') FLASH_ENV_START_ADDR = 1.
Proof.
  intros w.
  destruct (write_verifies_each_word FLASH_ENV_START_ADDR [1; 2; 3] w 4
              FLASH_ENV_START_ADDR_range ltac:(by_arith)
              ltac:(apply Nat.ltb_lt; reflexivity)) as [_ Hfail].
  destruct (Hfail 1%nat) as (w' & Hrun & Hcalls & Hcells).
  - apply Nat.ltb_lt. reflexivity.
  - intros [| j] Hj; [reflexivity |].
    exfalso. apply Nat.ltb_lt in Hj. discriminate.
  - reflexivity.
  - exists w'. split; [exact Hrun |]. split; [exact Hcalls |].
    exact (Hcells (sim_program_is_local _ _) (sim_lock_keeps_cells _ _)
                  0%nat ltac:(apply Nat.ltb_lt; reflexivity)).
Defined.

Lemma write_rounds_up_to_whole_words_witness :
  words_of 5 = 2%nat
  /\ exists w',
       flash_write 3 FLASH_ENV_START_ADDR (buffer [1; 2]) 5 (filled ERASED)
       = Some (FLASH_NO_ERR, w')
       /\ calls w'
          = [CallUnlock; CallClearFlag 53; CallProgramWord 134320128 1;
             CallProgramWord 134320132 2; CallLock].
Proof.
  split; [reflexivity |].
  destruct (write_rounds_up_to_whole_words FLASH_ENV_START_ADDR
              (buffer [1; 2]) 5 (filled ERASED) 3
              FLASH_ENV_START_ADDR_range ltac:(by_arith)
              ltac:(vm_compute; discriminate)) as (_ & _ & _ & Hpass & _).
  destruct Hpass as (w' & Hrun & Hcalls).
  - apply Nat.ltb_lt. reflexivity.
  - intros [| [| j]] Hj; try reflexivity.
    exfalso. apply Nat.ltb_lt in Hj. discriminate.
  - exists w'. split; [exact Hrun | exact Hcalls].
Defined.

Lemma read_copies_words_witness :
  fst (flash_read FLASH_ENV_START_ADDR 2 ramp)
  = (FLASH_NO_ERR, [50462976; 117835012])
  /\ snd (flash_read FLASH_ENV_START_ADDR 2 ramp) = ramp.
Proof.
  rewrite (proj1 (read_copies_words FLASH_ENV_START_ADDR 2 ramp)).
  split; [vm_compute; reflexivity | reflexivity].
Defined.

End OnTheMediumDensityPart.

Lemma erase_stops_at_first_failure_witness :
  let flash := md_flash_protected (FLASH_ENV_START_ADDR + 1024) in
  let out := flash_erase (M := flash) STM32F10X_MD FLASH_ENV_START_ADDR 3000
                         (filled 0) in
  pages_of STM32F10X_MD 3000 = 3%nat
  /\ fst out = FLASH_ERASE_ERR
  /\ calls (snd out)
     = [CallUnlock; CallClearFlag 53; CallErasePage 134320128;
        CallErasePage 134321152; CallLock]
  /\ erased_range (M := flash) (dev (snd out)) FLASH_ENV_START_ADDR 1024.
Proof.
  intros flash out. split; [reflexivity |].
  destruct (erase_stops_at_first_failure (M := flash) STM32F10X_MD
              FLASH_ENV_START_ADDR 3000 (filled 0) 1)
    as (Hres & Hcalls & Hcells).
  - apply Nat.ltb_lt. reflexivity.
  - intros [| j] Hj; [reflexivity |].
    exfalso. apply Nat.ltb_lt in Hj. discriminate.
  - vm_compute. discriminate.
  - split; [exact Hres |]. split; [exact Hcalls |].
    refine (Hcells (sim_lock_keeps_cells _ _) (sim_erase_keeps_erased _ _) _).
    intros j Hj. apply sim_erase_clears_page.
    destruct j as [| j]; [aligned_by_computation |].
    exfalso. apply Nat.ltb_lt in Hj. discriminate.
Defined.

(* ------------------------------------------------------------------ *)
(** ** Where the statements stop holding *)


(** C5 for every size hint fails.  A hint of 1022 is not a multiple of 4:
    the assertion fails and [flash_port_init] hands out nothing. *)
Lemma negotiate_faults_on_hint_1022 :
  let a := {| env_addr := 0; env_size := 1022;
              default_env := []; default_env_size := 0 |} in
  flash_port_init STM32F10X_MD a = ConfigurationFault a
  /\ flash_port_init STM32F10X_MD a
     <> InitReturned FLASH_NO_ERR (negotiated STM32F10X_MD).
Proof.
  intros a. split; [reflexivity |]. vm_compute. discriminate.
Qed.

Lemma erased_from_is_erased (target : Target) (protected : Z -> bool)
      (a n : Z) :
  0 <= a -> a + n <= two32 ->
  erased_range (M := sim_medium target protected) (dev (erased_from a n)) a n.
Proof.
  intros Ha Hn o Ho. cbn [cell sim_medium dev erased_from].
  unfold byte_addr. rewrite wrap32_small by lia.
  replace (a <=? a + o) with true by (symmetry; apply Z.leb_le; lia).
  replace (a + o <? a + n) with true by (symmetry; apply Z.ltb_lt; lia).
  reflexivity.
Qed.


(* ------------------------------------------------------------------ *)
(** ** The loop counter of flash_write at the top of its range *)

Lemma erased_store_takes_all_ones (addr : Z) (k : nat) (b : Z) :
  dev (after_programs (M := md_flash) addr all_ones k
                      (unlocked (M := md_flash) (filled ERASED))) b
  = ERASED.
Proof.
  induction k as [| k IH]; [reflexivity |].
  cbn [after_programs do_ProgramWord snd record dev].
  set (d := dev (after_programs (M := md_flash) addr all_ones k
                                (unlocked (M := md_flash) (filled ERASED))))
    in *.
  change (snd (sim_ProgramWord STM32F10X_MD unprotected
                               (word_addr addr k) (all_ones k) d) b = ERASED).
  unfold sim_ProgramWord, unprotected. cbn [snd]. rewrite IH.
  repeat match goal with
         | |- (if ?c then _ else _) = _ => destruct c
         end; reflexivity.
Qed.

Lemma all_ones_always_verified (addr : Z) (j : nat) :
  verified (M := md_flash) addr all_ones j
           (unlocked (M := md_flash) (filled ERASED)) = true.
Proof.
  unfold verified, load32.
  change (@cell Store md_flash) with (fun (m : Store) (b : Z) => m b).
  cbv beta. now rewrite !erased_store_takes_all_ones.
Qed.

(** C10 without a bound on the size fails at the top of the range of
    [size_t].  4294967295 is not a multiple of 4.  On an erased store a
    buffer of all-ones words passes every read-back, yet the write does not
    return for any amount of fuel: [i += 4] takes the counter from
    4294967292 back to 0, which is below [size] again, so the loop goes past
    the 2^30 words that cover [size] bytes. *)
Lemma write_of_largest_size_does_not_return :
  4294967295 mod 4 <> 0
  /\ (forall j, verified (M := md_flash) FLASH_ENV_START_ADDR all_ones j
                         (unlocked (M := md_flash) (filled ERASED)) = true)
  /\ ~ (exists fuel out,
          flash_write (M := md_flash) fuel FLASH_ENV_START_ADDR all_ones
                      4294967295 (filled ERASED) = Some out).
Proof.
  split; [vm_compute; discriminate |].
  split; [apply all_ones_always_verified |].
  intros (fuel & out & Hrun). unfold flash_write in Hrun.
  pose proof (write_loop_wraps (M := md_flash) FLASH_ENV_START_ADDR all_ones
                4294967295 (unlocked (M := md_flash) (filled ERASED)) fuel 0
                ltac:(by_arith)
                (all_ones_always_verified FLASH_ENV_START_ADDR)) as Hnone.
  rewrite (word_addr_0 FLASH_ENV_START_ADDR FLASH_ENV_START_ADDR_range)
    in Hnone.
  change (wrap32 (4 * Z.of_nat 0)) with 0 in Hnone.
  cbn [after_programs] in Hnone. unfold unlocked in Hnone.
  rewrite Hnone in Hrun. discriminate.
Qed.

(* ================================================================== *)
(** * Further properties of the port *)

(* ------------------------------------------------------------------ *)
(** ** Reading in pieces *)

Section ReadPieces.

Context {Dev : Type} {M : Medium Dev}.

Lemma read_loop_wrap (d : Dev) (n : nat) (addr : Z) :
  read_loop n (wrap32 addr) d = read_loop n addr d.
Proof.
  rewrite !read_loop_words. apply map_ext. intros i.
  unfold word_addr. now rewrite wrap32_add_l.
Qed.

Lemma read_loop_app (d : Dev) (m n : nat) (addr : Z) :
  read_loop (m + n) addr d
  = read_loop m addr d ++ read_loop n (word_addr addr m) d.
Proof.
  revert addr. induction m as [| m IH]; intros addr.
  - cbn [Nat.add read_loop app]. unfold word_addr.
    now rewrite Z.mul_0_r, Z.add_0_r, read_loop_wrap.
  - cbn [Nat.add read_loop app]. f_equal.
    now rewrite IH, word_addr_shift.
Qed.

(** X1. A read can be done in pieces: reading [m + n] words from [addr]
    gives the [m] words read from [addr] followed by the [n] words read
    from [addr + 4 * m] (modulo 2^32). *)
Theorem read_in_pieces (addr : Z) (m n : nat) (w : World Dev) :
  snd (fst (flash_read addr (Z.of_nat (m + n)) w))
  = snd (fst (flash_read addr (Z.of_nat m) w))
    ++ snd (fst (flash_read (wrap32 (addr + 4 * Z.of_nat m)) (Z.of_nat n) w)).
Proof.
  unfold flash_read. cbn [fst snd]. rewrite !Nat2Z.id.
  apply read_loop_app.
Qed.

End ReadPieces.

(* ------------------------------------------------------------------ *)
(** ** What the loops look at, and how a write leaves the controller *)

Section WriteShape.

Context {Dev : Type} {M : Medium Dev}.

Lemma write_loop_reporting (st : Z -> Z -> Dev -> FLASH_Status)
      (fuel : nat) (a : Z) (buf : nat -> Z) (k : nat) (i size : Z)
      (w : World Dev) :
  write_loop (M := reporting st) fuel a buf k i size w
  = write_loop (M := M) fuel a buf k i size w.
Proof.
  revert a k i w. induction fuel as [| fuel IH]; intros a k i w;
    cbn [write_loop]; [reflexivity |].
  destruct (i <? size); [| reflexivity].
  unfold do_ProgramWord. cbn [FLASH_ProgramWord reporting fst snd].
  change (load32 (M := reporting st)) with (load32 (M := M)).
  destruct (negb (load32
                    (dev (record (CallProgramWord a (buf k))
                                 (snd (FLASH_ProgramWord a (buf k) (dev w)))
                                 w)) a =? buf k)).
  - reflexivity.
  - apply IH.
Qed.

(** X6. [flash_write] does not look at what [FLASH_ProgramWord] reports.
    Whatever status the routine hands back for each word, the write makes
    the same calls, leaves the device in the same state and returns the
    same code: only the read-back decides. *)
Theorem write_ignores_program_status
        (st : Z -> Z -> Dev -> FLASH_Status)
        (fuel : nat) (addr : Z) (buf : nat -> Z) (size : Z) (w : World Dev) :
  flash_write (M := reporting st) fuel addr buf size w
  = flash_write (M := M) fuel addr buf size w.
Proof.
  unfold flash_write.
  change (do_ClearFlag (M := reporting st) CLEARED_FLAGS
                       (do_Unlock (M := reporting st) w))
    with (do_ClearFlag (M := M) CLEARED_FLAGS (do_Unlock (M := M) w)).
  rewrite write_loop_reporting.
  destruct (write_loop fuel addr buf 0 0 size _) as [[r w'] |]; reflexivity.
Qed.

Lemma write_loop_calls (fuel : nat) (a : Z) (buf : nat -> Z) (k : nat)
      (i size : Z) (w : World Dev) (r : FlashErrCode) (w' : World Dev) :
  write_loop fuel a buf k i size w = Some (r, w') ->
  exists programs,
    calls w' = calls w ++ programs
    /\ forallb is_program_call programs = true
    /\ (r = FLASH_WRITE_ERR -> programs <> [])
    /\ (r = FLASH_NO_ERR \/ r = FLASH_WRITE_ERR).
Proof.
  revert a k i w. induction fuel as [| fuel IH]; intros a k i w H;
    cbn [write_loop] in H; [discriminate |].
  destruct (i <? size).
  - unfold do_ProgramWord in H. cbn [fst snd] in H.
    set (w1 := record (CallProgramWord a (buf k))
                      (snd (FLASH_ProgramWord a (buf k) (dev w))) w) in *.
    destruct (negb (load32 (dev w1) a =? buf k)).
    + injection H as <- <-. exists [CallProgramWord a (buf k)].
      split; [reflexivity |]. split; [reflexivity |].
      split; [discriminate | now right].
    + destruct (IH _ _ _ _ H) as (ps & Hc & Hp & _ & Hr).
      exists (CallProgramWord a (buf k) :: ps).
      split; [| split; [exact Hp | split; [discriminate | exact Hr]]].
      rewrite Hc. unfold w1, record. cbn [calls].
      now rewrite <- app_assoc.
  - injection H as <- <-. exists [].
    split; [now rewrite app_nil_r |]. split; [reflexivity |].
    split; [discriminate | now left].
Qed.

(** X7. The controller is locked again on every way out of
    [flash_write], and nothing but programming happens in between: for
    every size, whenever the call returns, its calls are unlock, clear the
    flags, then [FLASH_ProgramWord] calls only, then lock; the code it
    returns is [FLASH_NO_ERR] or [FLASH_WRITE_ERR], and a call that
    returns [FLASH_WRITE_ERR] has programmed at least one word. *)
Theorem write_is_bracketed (fuel : nat) (addr : Z) (buf : nat -> Z)
        (size : Z) (w : World Dev) (r : FlashErrCode) (w' : World Dev) :
  flash_write fuel addr buf size w = Some (r, w') ->
  exists programs,
    calls w'
    = calls w ++ [CallUnlock; CallClearFlag CLEARED_FLAGS]
              ++ programs ++ [CallLock]
    /\ forallb is_program_call programs = true
    /\ (r = FLASH_WRITE_ERR -> programs <> [])
    /\ (r = FLASH_NO_ERR \/ r = FLASH_WRITE_ERR).
Proof.
  unfold flash_write. intros H.
  destruct (write_loop fuel addr buf 0 0 size _) as [[r0 w0] |] eqn:E;
    [| discriminate].
  injection H as <- <-.
  destruct (write_loop_calls _ _ _ _ _ _ _ _ _ E) as (ps & Hc & Hp & Hne & Hr).
  exists ps. split; [| split; [exact Hp | split; [exact Hne | exact Hr]]].
  unfold do_Lock, record. cbn [calls]. rewrite Hc.
  fold (unlocked w). rewrite calls_unlocked. now rewrite <- !app_assoc.
Qed.

Lemma write_loop_top (size : Z) (fuel : nat) (a : Z) (buf : nat -> Z)
      (k : nat) (i : Z) (w : World Dev) (r : FlashErrCode) (w' : World Dev) :
  two32 - 4 < size ->
  0 <= i < two32 ->
  i mod 4 = 0 ->
  write_loop fuel a buf k i size w = Some (r, w') ->
  r = FLASH_WRITE_ERR.
Proof.
  intros Hs. revert a k i w. induction fuel as [| fuel IH];
    intros a k i w Hi Hm H; cbn [write_loop] in H; [discriminate |].
  assert (Hlt : i < size).
  { pose proof (Z.div_mod i 4 ltac:(lia)) as Hdm. unfold two32 in *. lia. }
  apply Z.ltb_lt in Hlt. rewrite Hlt in H.
  unfold do_ProgramWord in H. cbn [fst snd] in H.
  match type of H with
  | (if ?c then _ else _) = _ => destruct c
  end.
  - now injection H as <- _.
  - eapply IH; [apply wrap32_range | | exact H].
    unfold wrap32.
    rewrite Z.mod_mod_divide by (exists 1073741824; reflexivity).
    rewrite <- Z.add_mod_idemp_l, Hm by lia. reflexivity.
Qed.

(** X8. At the top of the range of [size_t] a write cannot succeed: for a
    size above 2^32 - 4 the loop counter never reaches the size, so the
    loop is only ever left through a read-back that differs.  Whatever the
    medium, the buffer and the fuel, [flash_write] does not return
    [FLASH_NO_ERR]. *)
Theorem write_of_top_sizes_never_succeeds
        (fuel : nat) (addr : Z) (buf : nat -> Z) (size : Z)
        (w w' : World Dev) :
  two32 - 4 < size ->
  flash_write fuel addr buf size w <> Some (FLASH_NO_ERR, w').
Proof.
  intros Hs H. unfold flash_write in H.
  destruct (write_loop fuel addr buf 0 0 size _) as [[r0 w0] |] eqn:E;
    [| discriminate].
  apply write_loop_top in E; [| assumption | unfold two32; lia | reflexivity].
  subst r0. discriminate.
Qed.

Lemma erase_loop_seen_as (c : Dev -> Z -> Z) (target : Target)
      (n : nat) (addr i : Z) (w : World Dev) :
  erase_loop (M := seen_as c) target n addr i w
  = erase_loop (M := M) target n addr i w.
Proof.
  revert i w. induction n as [| n IH]; intros i w; cbn [erase_loop];
    [reflexivity |].
  unfold do_ErasePage. cbn [FLASH_ErasePage seen_as fst snd].
  destruct (is_complete (fst (FLASH_ErasePage
                                (wrap32 (addr + wrap32 (PAGE_SIZE target * i)))
                                (dev w)))).
  - apply IH.
  - reflexivity.
Qed.

(** X14. [flash_erase] does not read the array.  Whatever the cells hold
    before, between and after the page erases, the erase makes the same
    calls, leaves the device in the same state and returns the same code:
    only what [FLASH_ErasePage] reports decides, and an erase that is
    reported complete is not checked. *)
Theorem erase_trusts_the_status
        (c : Dev -> Z -> Z) (target : Target) (addr size : Z)
        (w : World Dev) :
  flash_erase (M := seen_as c) target addr size w
  = flash_erase (M := M) target addr size w.
Proof.
  unfold flash_erase.
  change (do_ClearFlag (M := seen_as c) CLEARED_FLAGS
                       (do_Unlock (M := seen_as c) w))
    with (do_ClearFlag (M := M) CLEARED_FLAGS (do_Unlock (M := M) w)).
  rewrite erase_loop_seen_as.
  destruct (erase_loop target _ addr 0 _) as [r w']. reflexivity.
Qed.

End WriteShape.

(* ------------------------------------------------------------------ *)
(** ** What a write and an erase leave alone *)

Section Frames.

Context {Dev : Type} {M : Medium Dev}.

Lemma programmed_cells_frame (addr : Z) (buf : nat -> Z) (k : nat)
      (w : World Dev) (b : Z) :
  program_is_local ->
  outside addr (4 * Z.of_nat k) b ->
  cell (dev (after_programs addr buf k w)) b = cell (dev w) b.
Proof.
  intros Hlocal Hout.
  change (dev w) with (dev (after_programs addr buf 0 w)).
  apply programs_keep_other_cells; [assumption | lia |].
  intros j t Hj Ht. rewrite word_byte_addr. apply Hout. lia.
Qed.

Lemma erased_pages_frame (target : Target) (addr : Z) (k : nat)
      (w : World Dev) (b : Z) :
  (forall j, (j < k)%nat -> erase_is_local target (page_addr target addr j)) ->
  outside addr (Z.of_nat k * PAGE_SIZE target) b ->
  cell (dev (after_erases target addr k w)) b = cell (dev w) b.
Proof.
  pose proof (PAGE_SIZE_pos target) as Hp.
  induction k as [| k IH]; intros Hlocal Hout; [reflexivity |].
  cbn [after_erases do_ErasePage snd record dev].
  rewrite (Hlocal k) by
    (lia || (intros o Ho; rewrite page_byte; apply Hout; nia)).
  apply IH.
  - intros j Hj. apply Hlocal. lia.
  - intros o Ho. apply Hout. nia.
Qed.

(** X4. A write leaves alone every cell outside the words it programmed.
    Where programming a word touches the four bytes of that word only and
    the control routines leave the cells alone, a write of a size at most
    2^32 - 4 that returns has programmed the first [k] words of the buffer,
    all of them when it returns [FLASH_NO_ERR], and every cell outside the
    [4 * k] bytes from [addr] on holds what it held before the call: the
    words after a read-back that differs are untouched. *)
Theorem write_leaves_other_cells_alone
        (fuel : nat) (addr : Z) (buf : nat -> Z) (size : Z)
        (w : World Dev) (r : FlashErrCode) (w' : World Dev) :
  program_is_local ->
  unlock_keeps_cells ->
  clearflag_keeps_cells ->
  lock_keeps_cells ->
  0 <= addr < two32 ->
  no_wrap size ->
  flash_write fuel addr buf size w = Some (r, w') ->
  exists k,
    (k <= words_of size)%nat
    /\ (r = FLASH_NO_ERR -> k = words_of size)
    /\ calls w' = calls w ++ write_calls addr buf k
    /\ forall b, outside addr (4 * Z.of_nat k) b ->
                 cell (dev w') b = cell (dev w) b.
Proof.
  intros Hlocal Hu Hc Hl Haddr Hsize Hrun.
  assert (Hframe : forall k b,
            outside addr (4 * Z.of_nat k) b ->
            cell (dev (do_Lock (after_programs addr buf k (unlocked w)))) b
            = cell (dev w) b).
  { intros k b Hout.
    rewrite dev_do_Lock, Hl, programmed_cells_frame by assumption.
    now apply same_cells_unlocked. }
  destruct (flash_write_inv addr buf Haddr size w fuel _ _ Hsize Hrun)
    as [(-> & -> & _) | (m & Hm & -> & -> & _)].
  - exists (words_of size).
    split; [lia |]. split; [reflexivity |]. split; [apply calls_write |].
    apply Hframe.
  - exists (S m).
    split; [lia |]. split; [discriminate |]. split; [apply calls_write |].
    apply Hframe.
Qed.

(** X5. An erase leaves alone every cell outside the pages it went
    through.  Where a page erase touches the page at its address only and
    the control routines leave the cells alone, [flash_erase] goes through
    the first [k] pages, all of them when it returns [FLASH_NO_ERR], and
    every cell outside the [k] pages from [addr] on holds what it held
    before the call: the pages after a failing one are untouched. *)
Theorem erase_leaves_other_cells_alone
        (target : Target) (addr size : Z) (w : World Dev) :
  unlock_keeps_cells ->
  clearflag_keeps_cells ->
  lock_keeps_cells ->
  (forall j, (j < pages_of target size)%nat ->
             erase_is_local target (page_addr target addr j)) ->
  let out := flash_erase target addr size w in
  exists k,
    (k <= pages_of target size)%nat
    /\ (fst out = FLASH_NO_ERR -> k = pages_of target size)
    /\ calls (snd out) = calls w ++ erase_calls target addr k
    /\ forall b, outside addr (Z.of_nat k * PAGE_SIZE target) b ->
                 cell (dev (snd out)) b = cell (dev w) b.
Proof.
  intros Hu Hc Hl Hlocal out.
  assert (Hframe : forall k b,
            (k <= pages_of target size)%nat ->
            outside addr (Z.of_nat k * PAGE_SIZE target) b ->
            cell (dev (do_Lock (after_erases target addr k (unlocked w)))) b
            = cell (dev w) b).
  { intros k b Hk Hout. rewrite dev_do_Lock, Hl.
    rewrite erased_pages_frame;
      [now apply same_cells_unlocked | | assumption].
    intros j Hj. apply Hlocal. lia. }
  destruct (first_failing_page target addr (pages_of target size) (unlocked w))
    as [Hall | (m & Hm & Hb & Hf)].
  - pose proof (flash_erase_complete target addr size w Hall) as E.
    fold out in E. exists (pages_of target size). rewrite E. cbn [fst snd].
    split; [lia |]. split; [reflexivity |]. split; [apply calls_erase |].
    intros b Hout. apply Hframe; [lia | assumption].
  - pose proof (flash_erase_failure target addr size m w Hm Hb Hf) as E.
    fold out in E. exists (S m). rewrite E. cbn [fst snd].
    split; [lia |]. split; [discriminate |]. split; [apply calls_erase |].
    intros b Hout. apply Hframe; [lia | assumption].
Qed.

End Frames.

(* ------------------------------------------------------------------ *)
(** ** Erase, then read or write *)

Section AfterErase.

Context {Dev : Type} {M : Medium Dev}.

Lemma erased_after_flash_erase (target : Target) (addr size : Z)
      (w : World Dev) :
  lock_keeps_cells ->
  erase_keeps_erased ->
  (forall j, (j < pages_of target size)%nat ->
             erase_clears_page target (page_addr target addr j)) ->
  fst (flash_erase target addr size w) = FLASH_NO_ERR ->
  erased_range (dev (snd (flash_erase target addr size w))) addr
               (Z.of_nat (pages_of target size) * PAGE_SIZE target).
Proof.
  intros Hlock Hkeep Hclear Hok.
  destruct (first_failing_page target addr (pages_of target size) (unlocked w))
    as [Hall | (m & Hm & Hb & Hf)].
  - rewrite flash_erase_complete by assumption. cbn [snd].
    intros o Ho. rewrite dev_do_Lock, Hlock.
    apply (erased_after_erases target addr (pages_of target size)
             (unlocked w)); auto.
  - rewrite (flash_erase_failure target addr size m w Hm Hb Hf) in Hok.
    discriminate.
Qed.

(** X2. Erase, then read.  On a medium whose completed page erase leaves
    the page erased and on which erased cells stay erased through later
    erases and the final lock, after an erase that returned
    [FLASH_NO_ERR] a read of any number of words that lie in the pages
    covered gives words with all bits set, and only those. *)
Theorem erase_then_read_gives_erased_words
        (target : Target) (addr size : Z) (count : nat) (w : World Dev) :
  lock_keeps_cells ->
  erase_keeps_erased ->
  (forall j, (j < pages_of target size)%nat ->
             erase_clears_page target (page_addr target addr j)) ->
  fst (flash_erase target addr size w) = FLASH_NO_ERR ->
  4 * Z.of_nat count <= Z.of_nat (pages_of target size) * PAGE_SIZE target ->
  let erased := snd (flash_erase target addr size w) in
  flash_read addr (Z.of_nat count) erased
  = (FLASH_NO_ERR, repeat ERASED_WORD count, erased).
Proof.
  intros Hlock Hkeep Hclear Hok Hcount erased.
  unfold flash_read. rewrite Nat2Z.id. do 2 f_equal.
  apply (read_of_erased_range _ addr
           (Z.of_nat (pages_of target size) * PAGE_SIZE target));
    [| assumption].
  now apply erased_after_flash_erase.
Qed.

(** On an erased range every word programmed reads back as programmed. *)
Lemma verified_on_erased (addr : Z) (buf : nat -> Z) (n : nat)
      (w : World Dev) :
  program_is_local ->
  program_stores_on_erased ->
  4 * Z.of_nat n <= two32 ->
  erased_range (dev w) addr (4 * Z.of_nat n) ->
  (forall j, (j < n)%nat -> 0 <= buf j < two32) ->
  forall j, (j < n)%nat -> verified addr buf j w = true.
Proof.
  intros Hlocal Hstore Hn Herased Hbuf j Hj. unfold verified.
  cbn [after_programs do_ProgramWord snd record dev].
  apply Z.eqb_eq, Hstore; [now apply Hbuf |].
  intros t Ht. rewrite word_byte_addr.
  rewrite programmed_cells_frame; [apply Herased; lia | assumption |].
  intros o Ho Heq. unfold byte_addr in Heq.
  apply wrap32_offset_inj in Heq; lia.
Qed.

(** Once every read-back has matched, a read gives the buffer back. *)
Lemma read_after_programs (addr : Z) (buf : nat -> Z) (n : nat)
      (w : World Dev) :
  program_is_local ->
  lock_keeps_cells ->
  4 * Z.of_nat n <= two32 ->
  (forall j, (j < n)%nat -> verified addr buf j w = true) ->
  read_loop n addr (dev (do_Lock (after_programs addr buf n w)))
  = map buf (seq 0 n).
Proof.
  intros Hlocal Hlock Hn Hall. rewrite read_loop_words.
  apply map_ext_in. intros j Hj. apply in_seq in Hj.
  rewrite dev_do_Lock.
  rewrite (load32_same (dev (after_programs addr buf n w)))
    by (intros t _; apply Hlock).
  apply verified_word_persists;
    [assumption | assumption | lia | apply Hall; lia].
Qed.


End AfterErase.

(* ------------------------------------------------------------------ *)
(** ** No page and no word twice *)

Section NoRepeat.

Context {Dev : Type} {M : Medium Dev}.

Lemma NoDup_offsets (addr step : Z) (k : nat) :
  0 < step ->
  Z.of_nat k * step <= two32 ->
  NoDup (map (fun i => wrap32 (addr + Z.of_nat i * step)) (seq 0 k)).
Proof.
  intros Hstep Hk. apply NoDup_map_NoDup_ForallPairs; [| apply seq_NoDup].
  intros i j Hi Hj Heq. apply in_seq in Hi, Hj.
  apply wrap32_offset_inj in Heq; nia.
Qed.

(** X9. No page is erased twice in one call: for every size that fits
    [size_t], the addresses that [flash_erase] hands to [FLASH_ErasePage]
    are pairwise different, wherever the erase starts. *)
Theorem erase_takes_no_page_twice
        (target : Target) (addr size : Z) (w : World Dev) :
  0 <= size < two32 ->
  exists k,
    calls (snd (flash_erase target addr size w))
    = calls w ++ erase_calls target addr k
    /\ NoDup (map (fun i => wrap32 (addr + Z.of_nat i * PAGE_SIZE target))
                  (seq 0 k)).
Proof.
  intros Hsize.
  destruct (flash_erase_shape target addr size w) as (k & Hk & E).
  exists k. rewrite E. split; [apply calls_erase |].
  apply NoDup_offsets; [apply PAGE_SIZE_pos |].
  pose proof (erase_pages_bounds target size ltac:(lia)) as (Hp0 & _ & Hp2).
  pose proof (PAGE_SIZE_cases target) as Hps.
  assert (Hdiv : two32 mod PAGE_SIZE target = 0)
    by (destruct Hps as [-> | ->]; reflexivity).
  apply Z.mod_divide in Hdiv; [| pose proof (PAGE_SIZE_pos target); lia].
  destruct Hdiv as [q Hq].
  unfold pages_of in Hk.
  assert (Hkz : Z.of_nat k <= erase_pages target size) by lia.
  pose proof (PAGE_SIZE_pos target) as Hpos.
  assert (erase_pages target size <= q) by nia.
  nia.
Qed.

(** X10. No word is programmed twice in one call: for every size at most
    2^32 - 4, the addresses that [flash_write] hands to
    [FLASH_ProgramWord] are pairwise different. *)
Theorem write_takes_no_word_twice
        (fuel : nat) (addr : Z) (buf : nat -> Z) (size : Z)
        (w : World Dev) (r : FlashErrCode) (w' : World Dev) :
  0 <= addr < two32 ->
  no_wrap size ->
  flash_write fuel addr buf size w = Some (r, w') ->
  exists k,
    calls w' = calls w ++ write_calls addr buf k
    /\ NoDup (map (fun i => wrap32 (addr + 4 * Z.of_nat i)) (seq 0 k)).
Proof.
  intros Haddr Hsize Hrun.
  assert (Hwords : 4 * Z.of_nat (words_of size) <= two32).
  { unfold words_of. destruct Hsize as [Hs0 Hs1].
    pose proof (Z.div_mod (size + 3) 4 ltac:(lia)) as Hdm.
    pose proof (Z.mod_pos_bound (size + 3) 4 ltac:(lia)) as Hb.
    rewrite Z2Nat.id by (apply Z.div_pos; lia). lia. }
  assert (Hnodup : forall k, (k <= words_of size)%nat ->
            NoDup (map (fun i => wrap32 (addr + 4 * Z.of_nat i)) (seq 0 k))).
  { intros k Hk.
    rewrite (map_ext _ (fun i => wrap32 (addr + Z.of_nat i * 4)))
      by (intros i; f_equal; lia).
    apply NoDup_offsets; lia. }
  destruct (flash_write_inv addr buf Haddr size w fuel _ _ Hsize Hrun)
    as [(_ & -> & _) | (m & Hm & _ & -> & _)].
  - exists (words_of size). split; [apply calls_write | apply Hnodup; lia].
  - exists (S m). split; [apply calls_write | apply Hnodup; lia].
Qed.

(** X11. An erase that starts on a page boundary stays on page
    boundaries: if [addr] is page-aligned and the pages covered end within
    the address space, the addresses that [flash_erase] hands to
    [FLASH_ErasePage] are [addr], [addr + PAGE_SIZE], [addr + 2 * PAGE_SIZE],
    ... as they stand, without wrap-around, and each of them is
    page-aligned. *)
Theorem aligned_erase_stays_aligned
        (target : Target) (addr size : Z) (w : World Dev) :
  page_aligned target addr ->
  addr + Z.of_nat (pages_of target size) * PAGE_SIZE target <= two32 ->
  exists k,
    (k <= pages_of target size)%nat
    /\ calls (snd (flash_erase target addr size w))
       = calls w ++ [CallUnlock; CallClearFlag CLEARED_FLAGS]
                 ++ map (fun i =>
                           CallErasePage (addr + Z.of_nat i * PAGE_SIZE target))
                        (seq 0 k)
                 ++ [CallLock]
    /\ forall i, (i < k)%nat ->
         page_aligned target (addr + Z.of_nat i * PAGE_SIZE target).
Proof.
  intros Haligned Hend.
  destruct (flash_erase_shape target addr size w) as (k & Hk & E).
  assert (Hpage : forall i, (i < k)%nat ->
            wrap32 (addr + Z.of_nat i * PAGE_SIZE target)
            = addr + Z.of_nat i * PAGE_SIZE target
            /\ page_aligned target (addr + Z.of_nat i * PAGE_SIZE target)).
  { intros i Hi.
    destruct (page_addr_aligned target addr (pages_of target size) i
                Haligned Hend ltac:(lia)) as [Hflat Hal].
    rewrite Hflat in Hal. split; [| exact Hal].
    rewrite <- Hflat at 2. rewrite page_addr_flat. f_equal. lia. }
  exists k. split; [exact Hk |]. split.
  - rewrite E, calls_erase. unfold erase_calls. do 3 f_equal.
    apply map_ext_in. intros i Hi. apply in_seq in Hi.
    f_equal. apply Hpage. lia.
  - intros i Hi. now apply Hpage.
Qed.

End NoRepeat.

(* ------------------------------------------------------------------ *)
(** ** The negotiated region *)

Section Region.

Context {Dev : Type} {M : Medium Dev}.

Lemma flash_port_init_returns (target : Target) (a : InitArgs)
      (r : FlashErrCode) (out : InitArgs) :
  flash_port_init target a = InitReturned r out ->
  r = FLASH_NO_ERR /\ out = negotiated target.
Proof.
  unfold flash_port_init. destruct (env_size a mod 4 =? 0); [| discriminate].
  intros H. injection H as <- <-. split; reflexivity.
Qed.

(** X12. What [flash_port_init] hands out satisfies what it asks for.  The
    size it returns is a multiple of 4, so that a second negotiation fed
    with the outcome of a first one passes the assertion and returns the
    same outcome; the region starts on a word and on a page boundary and
    ends within the 32-bit address space; the entry count is the length of
    the table. *)
Theorem negotiation_output_is_accepted
        (target : Target) (a : InitArgs) (r : FlashErrCode) (out : InitArgs) :
  flash_port_init target a = InitReturned r out ->
  flash_port_init target out = InitReturned r out
  /\ env_size out mod 4 = 0
  /\ env_addr out mod 4 = 0
  /\ page_aligned target (env_addr out)
  /\ env_addr out + env_size out < two32
  /\ default_env_size out = Z.of_nat (List.length (default_env out)).
Proof.
  intros H. apply flash_port_init_returns in H. destruct H as [-> ->].
  assert (Hps : PAGE_SIZE target = 1024 \/ PAGE_SIZE target = 2048)
    by apply PAGE_SIZE_cases.
  unfold flash_port_init, page_aligned, negotiated, FLASH_ENV_SECTION_SIZE,
    FLASH_ENV_START_ADDR, FLASH_BASE, two32.
  cbn [env_size env_addr default_env default_env_size].
  destruct Hps as [-> | ->]; cbn; repeat split; lia.
Qed.

(** X13. Erasing the negotiated region erases one page.  For every target,
    an erase of the size and at the address that [flash_port_init] hands
    out makes exactly the calls unlock, clear the flags, one
    [FLASH_ErasePage] at the start of the region, lock; it returns
    [FLASH_NO_ERR] when that page erase is reported complete and
    [FLASH_ERASE_ERR] otherwise. *)
Theorem erase_of_negotiated_region
        (target : Target) (a : InitArgs) (r : FlashErrCode) (out : InitArgs)
        (w : World Dev) :
  flash_port_init target a = InitReturned r out ->
  let erased := flash_erase target (env_addr out) (env_size out) w in
  let status := fst (FLASH_ErasePage (env_addr out) (dev (unlocked w))) in
  calls (snd erased)
  = calls w ++ [CallUnlock; CallClearFlag CLEARED_FLAGS;
                CallErasePage (env_addr out); CallLock]
  /\ (status = FLASH_COMPLETE -> fst erased = FLASH_NO_ERR)
  /\ (status <> FLASH_COMPLETE -> fst erased = FLASH_ERASE_ERR).
Proof.
  intros H. apply flash_port_init_returns in H. destruct H as [_ ->].
  cbv zeta. cbn [negotiated env_addr env_size].
  assert (Hpages : erase_pages target (FLASH_ENV_SECTION_SIZE target) = 1)
    by (destruct target; reflexivity).
  assert (Hpage : wrap32 (FLASH_ENV_START_ADDR
                          + wrap32 (PAGE_SIZE target * 0))
                  = FLASH_ENV_START_ADDR)
    by (rewrite Z.mul_0_r; reflexivity).
  unfold flash_erase.
  rewrite Hpages. fold (unlocked w).
  change (Z.to_nat 1) with 1%nat. cbn [erase_loop].
  rewrite Hpage. unfold do_ErasePage. cbn [fst snd].
  assert (Hcalls : forall d,
            calls (do_Lock (record (CallErasePage FLASH_ENV_START_ADDR) d
                                   (unlocked w)))
            = calls w ++ [CallUnlock; CallClearFlag CLEARED_FLAGS;
                          CallErasePage FLASH_ENV_START_ADDR; CallLock]).
  { intros d. unfold do_Lock, record. cbn [calls]. rewrite calls_unlocked.
    now rewrite <- !app_assoc. }
  destruct (fst (FLASH_ErasePage FLASH_ENV_START_ADDR (dev (unlocked w))));
    cbn [is_complete erase_loop fst snd];
    (split; [apply Hcalls | split; intros Hs; congruence]).
Qed.

End Region.

(* ------------------------------------------------------------------ *)
(** ** The further properties at work on the simulated medium *)

Lemma land_erased (x : Z) : 0 <= x < 256 -> Z.land ERASED x = x.
Proof.
  intros Hx. rewrite Z.land_comm. change ERASED with (Z.ones 8).
  rewrite Z.land_ones by lia. apply Z.mod_small. exact Hx.
Qed.

Lemma word_byte_range (v k : Z) : 0 <= word_byte v k < 256.
Proof. unfold word_byte. apply Z.mod_pos_bound. lia. Qed.

Lemma word_bytes_sum (v : Z) :
  0 <= v < two32 ->
  word_byte v 0 + 256 * word_byte v 1 + 65536 * word_byte v 2
  + 16777216 * word_byte v 3 = v.
Proof.
  intros Hv. unfold word_byte, two32 in *.
  change (256 ^ 0) with 1. change (256 ^ 1) with 256.
  change (256 ^ 2) with 65536. change (256 ^ 3) with 16777216.
  Z.div_mod_to_equations. lia.
Qed.

Lemma sim_program_stores_on_erased (target : Target) :
  program_stores_on_erased (M := sim_medium target unprotected).
Proof.
  intros a v d Hv Herased.
  assert (Hne : forall i j, 0 <= i < 4 -> 0 <= j < 4 -> i <> j ->
                  (byte_addr a i =? byte_addr a j) = false).
  { intros i j Hi Hj Hij. apply Z.eqb_neq. intros Heq.
    unfold byte_addr in Heq. apply wrap32_offset_inj in Heq;
      unfold two32; lia. }
  assert (He : forall t, 0 <= t < 4 -> d (byte_addr a t) = ERASED)
    by (intros t Ht; exact (Herased t Ht)).
  unfold load32.
  change (cell (Medium := sim_medium target unprotected))
    with (fun (m : Store) (b : Z) => m b).
  cbv beta. cbn [FLASH_ProgramWord sim_medium].
  unfold sim_ProgramWord, unprotected. cbn [snd].
  rewrite !Z.eqb_refl.
  rewrite (Hne 1 0), (Hne 2 0), (Hne 2 1), (Hne 3 0), (Hne 3 1), (Hne 3 2)
    by lia.
  rewrite !He by lia.
  rewrite !land_erased by apply word_byte_range.
  now apply word_bytes_sum.
Qed.

Section FurtherOnTheMediumDensityPart.

#[local] Existing Instance md_flash.

Lemma write_onto_dirty_word :
  flash_write 4 FLASH_ENV_START_ADDR (buffer [1; 2; 3]) 12
              (dirty_word (FLASH_ENV_START_ADDR + 4))
  = Some (FLASH_WRITE_ERR,
          do_Lock (after_programs FLASH_ENV_START_ADDR (buffer [1; 2; 3]) 2
                     (unlocked (dirty_word (FLASH_ENV_START_ADDR + 4))))).
Proof.
  apply (flash_write_mismatch FLASH_ENV_START_ADDR (buffer [1; 2; 3])
           FLASH_ENV_START_ADDR_range 12 _ 4 1).
  - by_arith.
  - apply Nat.ltb_lt. reflexivity.
  - apply Nat.ltb_lt. reflexivity.
  - intros [| j] Hj; [reflexivity |].
    exfalso. apply Nat.ltb_lt in Hj. discriminate.
  - reflexivity.
Qed.

Lemma no_wrap_12 : no_wrap 12.
Proof. by_arith. Qed.

Lemma md_pages_aligned (size : Z) (n : nat) :
  pages_of STM32F10X_MD size = n ->
  (n <=? 3)%nat = true ->
  forall j, (j < pages_of STM32F10X_MD size)%nat ->
    page_aligned STM32F10X_MD (page_addr STM32F10X_MD FLASH_ENV_START_ADDR j).
Proof.
  intros -> Hn j Hj. apply Nat.leb_le in Hn.
  destruct j as [| [| [| j]]]; [aligned_by_computation .. | lia].
Qed.

Lemma write_is_bracketed_witness :
  exists w' programs,
    flash_write 4 FLASH_ENV_START_ADDR (buffer [1; 2; 3]) 12
                (dirty_word (FLASH_ENV_START_ADDR + 4))
    = Some (FLASH_WRITE_ERR, w')
    /\ calls w'
       = [] ++ [CallUnlock; CallClearFlag CLEARED_FLAGS]
            ++ programs ++ [CallLock]
    /\ forallb is_program_call programs = true
    /\ programs <> [].
Proof.
  destruct (write_is_bracketed _ _ _ _ _ _ _ write_onto_dirty_word)
    as (programs & Hcalls & Hprog & Hne & _).
  eexists. exists programs. split; [exact write_onto_dirty_word |].
  split; [exact Hcalls |]. split; [exact Hprog | exact (Hne eq_refl)].
Defined.

Lemma write_of_top_sizes_never_succeeds_witness :
  two32 - 4 < 4294967295
  /\ flash_write 5 FLASH_ENV_START_ADDR all_ones 4294967295 (filled ERASED)
     <> Some (FLASH_NO_ERR, filled 0).
Proof.
  assert (Hs : two32 - 4 < 4294967295) by reflexivity.
  split; [exact Hs |].
  exact (write_of_top_sizes_never_succeeds 5 FLASH_ENV_START_ADDR all_ones
           4294967295 (filled ERASED) (filled 0) Hs).
Defined.

Lemma write_leaves_other_cells_alone_witness :
  exists w' k,
    flash_write 4 FLASH_ENV_START_ADDR (buffer [1; 2; 3]) 12
                (dirty_word (FLASH_ENV_START_ADDR + 4))
    = Some (FLASH_WRITE_ERR, w')
    /\ (k <= words_of 12)%nat
    /\ calls w' = [] ++ write_calls FLASH_ENV_START_ADDR (buffer [1; 2; 3]) k
    /\ forall b, outside FLASH_ENV_START_ADDR (4 * Z.of_nat k) b ->
                 cell (dev w') b
                 = cell (dev (dirty_word (FLASH_ENV_START_ADDR + 4))) b.
Proof.
  destruct (write_leaves_other_cells_alone _ _ _ _ _ _ _
              (sim_program_is_local STM32F10X_MD unprotected)
              (sim_unlock_keeps_cells STM32F10X_MD unprotected)
              (sim_clearflag_keeps_cells STM32F10X_MD unprotected)
              (sim_lock_keeps_cells STM32F10X_MD unprotected)
              FLASH_ENV_START_ADDR_range no_wrap_12
              write_onto_dirty_word)
    as (k & Hk & _ & Hcalls & Hframe).
  eexists. exists k. split; [exact write_onto_dirty_word |].
  split; [exact Hk |]. split; [exact Hcalls | exact Hframe].
Defined.

Lemma erase_then_read_gives_erased_words_witness :
  let erased := snd (flash_erase STM32F10X_MD FLASH_ENV_START_ADDR 1500
                                 (filled 0)) in
  flash_read FLASH_ENV_START_ADDR 512 erased
  = (FLASH_NO_ERR, repeat ERASED_WORD 512, erased).
Proof.
  refine (erase_then_read_gives_erased_words STM32F10X_MD
            FLASH_ENV_START_ADDR 1500 512 (filled 0)
            (sim_lock_keeps_cells STM32F10X_MD unprotected)
            (sim_erase_keeps_erased STM32F10X_MD unprotected)
            _ eq_refl _).
  - intros j Hj. apply sim_erase_clears_page.
    exact (md_pages_aligned 1500 2 eq_refl eq_refl j Hj).
  - vm_compute. discriminate.
Defined.


Lemma erase_takes_no_page_twice_witness :
  exists k,
    calls (snd (flash_erase STM32F10X_MD FLASH_ENV_START_ADDR 1500
                            (filled 0)))
    = [] ++ erase_calls STM32F10X_MD FLASH_ENV_START_ADDR k
    /\ NoDup (map (fun i => wrap32 (FLASH_ENV_START_ADDR
                                    + Z.of_nat i * PAGE_SIZE STM32F10X_MD))
                  (seq 0 k)).
Proof.
  exact (erase_takes_no_page_twice STM32F10X_MD FLASH_ENV_START_ADDR 1500
           (filled 0) ltac:(by_arith)).
Defined.

Lemma write_takes_no_word_twice_witness :
  exists w' k,
    flash_write 4 FLASH_ENV_START_ADDR (buffer [1; 2; 3]) 12
                (dirty_word (FLASH_ENV_START_ADDR + 4))
    = Some (FLASH_WRITE_ERR, w')
    /\ calls w' = [] ++ write_calls FLASH_ENV_START_ADDR (buffer [1; 2; 3]) k
    /\ NoDup (map (fun i => wrap32 (FLASH_ENV_START_ADDR + 4 * Z.of_nat i))
                  (seq 0 k)).
Proof.
  destruct (write_takes_no_word_twice _ _ _ _ _ _ _
              FLASH_ENV_START_ADDR_range no_wrap_12
              write_onto_dirty_word) as (k & Hcalls & Hnodup).
  eexists. exists k. split; [exact write_onto_dirty_word |].
  split; [exact Hcalls | exact Hnodup].
Defined.

Lemma aligned_erase_stays_aligned_witness :
  exists k,
    (k <= pages_of STM32F10X_MD 3000)%nat
    /\ calls (snd (flash_erase STM32F10X_MD FLASH_ENV_START_ADDR 3000
                               (filled 0)))
       = [] ++ [CallUnlock; CallClearFlag CLEARED_FLAGS]
            ++ map (fun i =>
                      CallErasePage (FLASH_ENV_START_ADDR
                                     + Z.of_nat i * PAGE_SIZE STM32F10X_MD))
                   (seq 0 k)
            ++ [CallLock]
    /\ forall i, (i < k)%nat ->
         page_aligned STM32F10X_MD
                      (FLASH_ENV_START_ADDR
                       + Z.of_nat i * PAGE_SIZE STM32F10X_MD).
Proof.
  refine (aligned_erase_stays_aligned STM32F10X_MD FLASH_ENV_START_ADDR 3000
            (filled 0) _ _).
  - aligned_by_computation.
  - vm_compute. discriminate.
Defined.

Lemma negotiation_output_is_accepted_witness :
  let a := {| env_addr := 0; env_size := 8;
              default_env := []; default_env_size := 0 |} in
  let out := negotiated STM32F10X_HD in
  flash_port_init STM32F10X_HD a = InitReturned FLASH_NO_ERR out
  /\ flash_port_init STM32F10X_HD out = InitReturned FLASH_NO_ERR out
  /\ env_size out mod 4 = 0.
Proof.
  intros a out.
  assert (H : flash_port_init STM32F10X_HD a = InitReturned FLASH_NO_ERR out)
    by reflexivity.
  destruct (negotiation_output_is_accepted STM32F10X_HD a FLASH_NO_ERR out H)
    as (Hagain & Hsize & _).
  split; [exact H |]. split; [exact Hagain | exact Hsize].
Defined.

Lemma erase_of_negotiated_region_witness :
  let a := {| env_addr := 0; env_size := 8;
              default_env := []; default_env_size := 0 |} in
  let out := negotiated STM32F10X_MD in
  let erased := flash_erase STM32F10X_MD (env_addr out) (env_size out)
                            (filled 0) in
  calls (snd erased)
  = [CallUnlock; CallClearFlag 53; CallErasePage 134320128; CallLock]
  /\ fst erased = FLASH_NO_ERR.
Proof.
  intros a out erased.
  destruct (erase_of_negotiated_region STM32F10X_MD a FLASH_NO_ERR out
              (filled 0) eq_refl) as (Hcalls & Hok & _).
  split; [exact Hcalls | exact (Hok eq_refl)].
Defined.

End FurtherOnTheMediumDensityPart.

Lemma erase_leaves_other_cells_alone_witness :
  let flash := md_flash_protected (FLASH_ENV_START_ADDR + 1024) in
  let out := flash_erase (M := flash) STM32F10X_MD FLASH_ENV_START_ADDR 3000
                         (filled 0) in
  exists k,
    (k <= pages_of STM32F10X_MD 3000)%nat
    /\ (fst out = FLASH_NO_ERR -> k = pages_of STM32F10X_MD 3000)
    /\ calls (snd out) = [] ++ erase_calls STM32F10X_MD FLASH_ENV_START_ADDR k
    /\ forall b,
         outside FLASH_ENV_START_ADDR (Z.of_nat k * PAGE_SIZE STM32F10X_MD) b ->
         cell (Medium := flash) (dev (snd out)) b
         = cell (Medium := flash) (dev (filled 0)) b.
Proof.
  intros flash out.
  refine (erase_leaves_other_cells_alone (M := flash) STM32F10X_MD
            FLASH_ENV_START_ADDR 3000 (filled 0)
            (sim_unlock_keeps_cells STM32F10X_MD _)
            (sim_clearflag_keeps_cells STM32F10X_MD _)
            (sim_lock_keeps_cells STM32F10X_MD _) _).
  intros j Hj. apply sim_erase_is_local.
  exact (md_pages_aligned 3000 3 eq_refl eq_refl j Hj).
Defined.
